(** * A shallow embedding of the generation-reconciliation pipeline of
    storyblok-cli-ai (src/server/app).

    Python [str] values are modelled as [string] (ASCII characters); Python
    dicts, whose iteration order is insertion order, as association lists
    with the update-in-place discipline of [dict.__setitem__]; the module
    [os.path] as its POSIX implementation ([os.sep = "/"]).  External
    effects (the model, the npm registry, subprocesses, the clock) are
    oracles passed as arguments, and calls to them are recorded where a
    claim counts them. *)

From Stdlib Require Import String Ascii List Bool ZArith QArith Lia.
Import ListNotations.
Open Scope list_scope.
Open Scope nat_scope.
Open Scope string_scope.

(* ------------------------------------------------------------------ *)
(** ** Python string primitives *)

Module Py.

(** Characters for which Python's [str.isspace] holds, restricted to ASCII. *)
Definition is_space (c : ascii) : bool :=
  let n := nat_of_ascii c in
  orb (andb (Nat.leb 9 n) (Nat.leb n 13))
      (andb (Nat.leb 28 n) (Nat.leb n 32)).

Fixpoint lstrip_ws (s : string) : string :=
  match s with
  | EmptyString => EmptyString
  | String c r => if is_space c then lstrip_ws r else s
  end.

Fixpoint rev_str (s : string) : string :=
  match s with
  | EmptyString => EmptyString
  | String c r => append (rev_str r) (String c EmptyString)
  end.

(** Trailing-space removal: a character is dropped when it is a space and
    everything after it is dropped too. *)
Fixpoint rstrip_ws (s : string) : string :=
  match s with
  | EmptyString => EmptyString
  | String c r =>
      let r' := rstrip_ws r in
      match r' with
      | EmptyString => if is_space c then EmptyString else String c EmptyString
      | _ => String c r'
      end
  end.

(** [str.strip()] with no argument. *)
Definition strip (s : string) : string := rstrip_ws (lstrip_ws s).

(** [str.lower()] on ASCII. *)
Definition lower_char (c : ascii) : ascii :=
  let n := nat_of_ascii c in
  if andb (Nat.leb 65 n) (Nat.leb n 90) then ascii_of_nat (n + 32) else c.

Fixpoint lower (s : string) : string :=
  match s with
  | EmptyString => EmptyString
  | String c r => String (lower_char c) (lower r)
  end.

(** [str.split()] with no argument: maximal runs of non-space characters. *)
Fixpoint split_ws_aux (s : string) (cur : string) : list string :=
  match s with
  | EmptyString => match cur with EmptyString => [] | _ => [rev_str cur] end
  | String c r =>
      if is_space c then
        match cur with
        | EmptyString => split_ws_aux r EmptyString
        | _ => rev_str cur :: split_ws_aux r EmptyString
        end
      else split_ws_aux r (String c cur)
  end.

Definition split_ws (s : string) : list string := split_ws_aux s EmptyString.

(** [sep.join(l)]. *)
Fixpoint join (sep : string) (l : list string) : string :=
  match l with
  | [] => EmptyString
  | [x] => x
  | x :: r => x ++ sep ++ join sep r
  end.

(** [s.split(c)] for a one-character separator. *)
Fixpoint split_char_aux (c : ascii) (s : string) (cur : string) : list string :=
  match s with
  | EmptyString => [rev_str cur]
  | String d r =>
      if Ascii.eqb c d then rev_str cur :: split_char_aux c r EmptyString
      else split_char_aux c r (String d cur)
  end.

Definition split_char (c : ascii) (s : string) : list string := split_char_aux c s EmptyString.

(** [s.startswith(p)]. *)
Definition startswith (p s : string) : bool := String.prefix p s.

(** [p in s] for strings. *)
Fixpoint contains (p s : string) : bool :=
  if String.prefix p s then true
  else match s with
       | EmptyString => false
       | String _ r => contains p r
       end.

(** [s.replace(a, b)] for one-character [a] and [b]. *)
Fixpoint replace_char (a b : ascii) (s : string) : string :=
  match s with
  | EmptyString => EmptyString
  | String c r => String (if Ascii.eqb c a then b else c) (replace_char a b r)
  end.

(** [s.lstrip(chars)]. *)
Fixpoint lstrip_chars (chars : list ascii) (s : string) : string :=
  match s with
  | EmptyString => EmptyString
  | String c r => if existsb (Ascii.eqb c) chars then lstrip_chars chars r else s
  end.

Definition slash : ascii := "/"%char.
Definition backslash : ascii := "\"%char.
Definition dot : ascii := "."%char.

(** Index of the last occurrence of [c] in [s], as Python's [rfind]
    ([-1] when absent), computed on positions counted from 0. *)
Fixpoint rfind_aux (c : ascii) (s : string) (i : Z) (best : Z) : Z :=
  match s with
  | EmptyString => best
  | String d r => rfind_aux c r (i + 1) (if Ascii.eqb c d then i else best)
  end.

Definition rfind (c : ascii) (s : string) : Z := rfind_aux c s 0 (-1).

(** [s[i:]] and [s[:i]] for [0 <= i]. *)
Definition drop (i : Z) (s : string) : string := substring (Z.to_nat i) (String.length s) s.
Definition take (i : Z) (s : string) : string := substring 0 (Z.to_nat i) s.

End Py.

(* ------------------------------------------------------------------ *)
(** ** [posixpath]: [normpath], [isabs], [basename], [splitext] *)

Module PosixPath.
Import Py.

Definition isabs (p : string) : bool := startswith "/" p.

(** The component loop of [posixpath.normpath]. *)
Fixpoint norm_comps (initial_slashes : nat) (comps : list string) (acc : list string) : list string :=
  match comps with
  | [] => acc
  | comp :: rest =>
      if orb (String.eqb comp "") (String.eqb comp ".") then norm_comps initial_slashes rest acc
      else
        let last_is_dots := match rev acc with x :: _ => String.eqb x ".." | [] => false end in
        if orb (negb (String.eqb comp ".."))
               (orb (andb (Nat.eqb initial_slashes 0) (match acc with [] => true | _ => false end))
                    last_is_dots)
        then norm_comps initial_slashes rest (acc ++ [comp])%list
        else match acc with
             | [] => norm_comps initial_slashes rest acc
             | _ => norm_comps initial_slashes rest (removelast acc)
             end
  end.

Fixpoint repeat_str (n : nat) (s : string) : string :=
  match n with O => EmptyString | S k => s ++ repeat_str k s end.

Definition normpath (path : string) : string :=
  match path with
  | EmptyString => "."
  | _ =>
      let initial_slashes :=
        if startswith "/" path then
          if andb (startswith "//" path) (negb (startswith "///" path)) then 2 else 1
        else 0 in
      let comps := norm_comps initial_slashes (split_char slash path) [] in
      let p := join "/" comps in
      let p := repeat_str initial_slashes "/" ++ p in
      match p with EmptyString => "." | _ => p end
  end.

(** [posixpath.basename]: [p[p.rfind('/') + 1:]]. *)
Definition basename (p : string) : string := drop (rfind slash p + 1) p.

(** [posixpath.splitext], returned as [(root, ext)]. *)
Fixpoint all_dots_between (s : string) (i j : Z) (fuel : nat) : bool :=
  match fuel with
  | O => true
  | S f =>
      if Z.ltb i j then
        match get (Z.to_nat i) s with
        | Some c => if Ascii.eqb c dot then all_dots_between s (i + 1) j f else false
        | None => true
        end
      else true
  end.

Definition splitext (p : string) : string * string :=
  let sepIndex := rfind slash p in
  let dotIndex := rfind dot p in
  if Z.ltb sepIndex dotIndex then
    if all_dots_between p (sepIndex + 1) dotIndex (String.length p)
    then (p, EmptyString)
    else (take dotIndex p, drop dotIndex p)
  else (p, EmptyString).

End PosixPath.

(* ------------------------------------------------------------------ *)
(** ** Path helpers of the application *)

Module Paths.
Import Py PosixPath.

(** [codegen_agent._normalize_path]:
    [os.path.normpath(p).replace("\\", "/").lstrip("/")]. *)
Definition _normalize_path (p : string) : string :=
  lstrip_chars [slash] (replace_char backslash slash (normpath p)).

(** [file_helpers._safe_normalize] (for a [str] argument). *)
Definition _safe_normalize (p0 : string) : option string :=
  if String.eqb (strip p0) "" then None
  else
    let p := replace_char backslash slash p0 in
    if isabs p then None
    else
      let clean := normpath p in
      if orb (startswith ".." clean) (orb (contains "/.." clean) (String.eqb clean ".."))
      then None
      else Some (lstrip_chars [dot; slash] (replace_char backslash slash clean)).

(** [os.path.normpath(p).lstrip(os.sep)], the path cleaning of the
    dedupe loops in [generate_project] and [generate_project_files]. *)
Definition clean_path (p : string) : string := lstrip_chars [slash] (normpath p).

End Paths.

(* ------------------------------------------------------------------ *)
(** ** Python dicts as insertion-ordered association lists *)

Module Dict.
Section Dict.
Variables K V : Type.
Variable keqb : K -> K -> bool.

(** [d.get(k)]. *)
Fixpoint get (k : K) (d : list (K * V)) : option V :=
  match d with
  | [] => None
  | (k', v) :: r => if keqb k k' then Some v else get k r
  end.

Definition mem (k : K) (d : list (K * V)) : bool :=
  match get k d with Some _ => true | None => false end.

(** [d[k] = v]: an existing key keeps its position, a new key goes last. *)
Fixpoint set (k : K) (v : V) (d : list (K * V)) : list (K * V) :=
  match d with
  | [] => [(k, v)]
  | (k', v') :: r => if keqb k k' then (k', v) :: r else (k', v') :: set k v r
  end.

End Dict.
Arguments get {K V} keqb k d.
Arguments mem {K V} keqb k d.
Arguments set {K V} keqb k v d.
End Dict.

(* ------------------------------------------------------------------ *)
(** ** Files, overlay delta and the dedupe loop *)

Module Files.
Import Py PosixPath Paths.

(** A [{"path": ..., "content": ...}] item ([FileOutModel]). *)
Record file := mkFile { path : string; content : string }.

Definition file_eqb (a b : file) : bool :=
  andb (String.eqb (path a) (path b)) (String.eqb (content a) (content b)).

Definition base_map := list (string * string).

Definition base_get (p : string) (m : base_map) : option string := Dict.get String.eqb p m.

(** [codegen_agent._compute_delta_files]. *)
Fixpoint _compute_delta_files (emitted_files : list file) (base_files_map : base_map) : list file :=
  match emitted_files with
  | [] => []
  | f :: rest =>
      let npath := _normalize_path (path f) in
      let c := content f in
      if String.eqb (basename npath) "package.json" then _compute_delta_files rest base_files_map
      else
        match base_get npath base_files_map with
        | None => mkFile npath c :: _compute_delta_files rest base_files_map
        | Some base_content =>
            if negb (String.eqb base_content c)
            then mkFile npath c :: _compute_delta_files rest base_files_map
            else _compute_delta_files rest base_files_map
        end
  end.

(** [binary_exts] of [generate_overlay]. *)
Definition binary_exts : list string :=
  [".png"; ".jpg"; ".jpeg"; ".gif"; ".svg"; ".ico"; ".webp"; ".avif"].

Definition is_binary_path (sp : string) : bool :=
  existsb (String.eqb (lower (snd (splitext sp)))) binary_exts.

(** The candidate loop of [generate_overlay] (api/generate.py).  [None]:
    the loop raised.  Its [warnings.append(...)] for a binary-extension
    item runs before the function first binds its local [warnings]
    (further down, [warnings = parsed.get("warnings") or []]), so it
    raises [UnboundLocalError], which the endpoint turns into an HTTP 500. *)
Fixpoint overlay_candidates (files_out_raw : list file) : option (list file) :=
  match files_out_raw with
  | [] => Some []
  | it :: rest =>
      match _safe_normalize (path it) with
      | None => overlay_candidates rest
      | Some sp =>
          if is_binary_path sp then None
          else if String.eqb (basename sp) "package.json" then overlay_candidates rest
          else match overlay_candidates rest with
               | Some cands => Some (mkFile sp (content it) :: cands)
               | None => None
               end
      end
  end.

(** The delta loop of [generate_overlay]. *)
Fixpoint overlay_delta (candidate_files : list file) (base_map : base_map) : list file :=
  match candidate_files with
  | [] => []
  | cf :: rest =>
      let p := path cf in
      let new_c := content cf in
      match base_get p base_map with
      | None => mkFile p new_c :: overlay_delta rest base_map
      | Some old_c =>
          if negb (String.eqb old_c new_c) then mkFile p new_c :: overlay_delta rest base_map
          else overlay_delta rest base_map
      end
  end.

(** The [files] of the [generate_overlay] response; [None] when the
    candidate loop raised (HTTP 500, no response body). *)
Definition generate_overlay_delta (files_out_raw : list file) (base_map : base_map) : option (list file) :=
  match overlay_candidates files_out_raw with
  | Some cands => Some (overlay_delta cands base_map)
  | None => None
  end.

(** The "sanitize & dedupe" loop of [generate_project]
    (codegen_agent.py; the same loop is in chain.generate_project_files). *)
Fixpoint replace_first (clean_p : string) (nf : file) (l : list file) : list file :=
  match l with
  | [] => []
  | ex :: r => if String.eqb (clean_path (path ex)) clean_p then nf :: r
               else ex :: replace_first clean_p nf r
  end.

Fixpoint sanitize_loop (generated : list file) (seen : list string) (sanitized : list file) : list file :=
  match generated with
  | [] => sanitized
  | f :: rest =>
      let p := path f in
      if String.eqb p "" then sanitize_loop rest seen sanitized
      else
        let clean_p := clean_path p in
        if existsb (String.eqb clean_p) seen
        then sanitize_loop rest seen (replace_first clean_p (mkFile clean_p (content f)) sanitized)
        else sanitize_loop rest (clean_p :: seen) (sanitized ++ [mkFile clean_p (content f)])%list
  end.

Definition sanitize_and_dedupe (generated_files : list file) : list file :=
  sanitize_loop generated_files [] [].

End Files.

(* ------------------------------------------------------------------ *)
(** ** The followup gate (core/followup_agent.py) *)

Module Followup.
Import Py.

(** [{id, question, urgency}] as produced by [_parse_followups]
    (urgency is a Python float, modelled as a rational). *)
Record followup := mkFollowup { fid : string; question : string; urgency : Q }.

(** [_normalize_qtext] and the local [_normalize] of
    [generate_followup_questions] (same body). *)
Definition _normalize_qtext (s : string) : string := join " " (split_ws (lower (strip s))).
Definition _normalize (s : string) : string := join " " (split_ws (lower (strip s))).

(** Step 3: dedupe against [seen_qs] and the coverage heuristic against
    previously given answers. *)
Fixpoint dedupe_loop (prev_answer_texts : list string) (candidates : list followup)
    (seen_qs : list string) : list followup :=
  match candidates with
  | [] => []
  | cand :: rest =>
      let qtext := question cand in
      if String.eqb (strip qtext) "" then dedupe_loop prev_answer_texts rest seen_qs
      else
        let qnorm := _normalize qtext in
        if existsb (String.eqb qnorm) seen_qs then dedupe_loop prev_answer_texts rest seen_qs
        else
          let already_answered :=
            existsb (fun a => andb (negb (String.eqb a ""))
                                   (orb (contains a qnorm) (contains qnorm a)))
                    prev_answer_texts in
          if already_answered then dedupe_loop prev_answer_texts rest seen_qs
          else mkFollowup (fid cand) (strip qtext) (urgency cand)
                 :: dedupe_loop prev_answer_texts rest (qnorm :: seen_qs)
  end.

(** Steps 2-5 of [generate_followup_questions], from the parsed candidates:
    [previous_questions] (the string entries of the option), the
    [followup_answers] values, [max_questions] and [min_urgency]. *)
Definition filter_candidates (candidates : list followup)
    (previous_questions : list string) (followup_answers : list string)
    (min_urgency : Q) : list followup :=
  let prev_q_norm := map _normalize previous_questions in
  let prev_answer_texts :=
    map _normalize (filter (fun v => negb (String.eqb (strip v) "")) followup_answers) in
  let filtered := dedupe_loop prev_answer_texts candidates prev_q_norm in
  filter (fun f => Qle_bool min_urgency (urgency f)) filtered.

Definition generate_followup_questions (candidates : list followup)
    (previous_questions : list string) (followup_answers : list string)
    (max_questions : Z) (min_urgency : Q) : list followup :=
  let max_questions := if Z.ltb max_questions 1 then 1%Z else max_questions in
  let filtered := filter_candidates candidates previous_questions followup_answers min_urgency in
  firstn (Z.to_nat max_questions) filtered.

(** The question-request branch at the top of [generate_project]
    (codegen_agent.py): followups are returned only when the gate returned
    a non-empty list; otherwise generation goes on. *)
Inductive gate_outcome :=
| ReturnFollowups (fs : list followup)
| ProceedToGeneration.

Definition generate_project_gate (request_questions : bool) (gate_followups : list followup) : gate_outcome :=
  if request_questions then
    match gate_followups with
    | [] => ProceedToGeneration
    | _ => ReturnFollowups gate_followups
    end
  else ProceedToGeneration.

End Followup.

(* ------------------------------------------------------------------ *)
(** ** Validators and the bounded repair (core/validator.py) *)

Module Validator.
Import Py Paths Files.

(** The scratch directory as the validators see it: relative path -> content. *)
Definition dir := list (string * string).

(** The file system under the scratch directory: [fs_write d f] is the
    directory after [target = Path(workdir) / f["path"];
    target.parent.mkdir(parents=True, exist_ok=True);
    target.write_text(f["content"], encoding="utf-8")], or [None] when one
    of these raises (an empty path names the directory itself, an
    absolute path replaces it, a file stands where a parent directory is
    needed, ...). *)
Record fs_env := mkFsEnv { fs_write : dir -> file -> option dir }.

(** The write loops of [generate_project] ([for f in sanitized_files: ...]):
    no handler around them, so the first failing write raises ([None]). *)
Fixpoint write_files (fs : fs_env) (l : list file) (d : dir) : option dir :=
  match l with
  | [] => Some d
  | f :: r => match fs_write fs d f with Some d' => write_files fs r d' | None => None end
  end.

(** The environment of the validators: [shutil.which] and [_run_cmd]
    (return code and combined output of a command run in a directory;
    timeouts and launch errors already mapped to 124 and 1 by [_run_cmd]). *)
Record tool_env := mkToolEnv {
  which : string -> bool;
  run_cmd : dir -> list string -> Z * string }.

Record check_result := mkCheck { cr_ok : bool; cr_skipped : bool; cr_output : string }.

Definition run_tsc_check (env : tool_env) (d : dir) : check_result :=
  let cmd :=
    if which env "npx" then Some ["npx"; "tsc"; "--noEmit"]
    else if which env "tsc" then Some ["tsc"; "--noEmit"]
    else None in
  match cmd with
  | None => mkCheck false true "tsc not found; skipping TypeScript validation"
  | Some c => let '(code, out) := run_cmd env d c in mkCheck (Z.eqb code 0) false out
  end.

Definition run_pytests (env : tool_env) (d : dir) : check_result :=
  if negb (which env "pytest") then mkCheck false true "pytest not found; skipping Python tests"
  else let '(code, out) := run_cmd env d ["pytest"; "-q"] in mkCheck (Z.eqb code 0) false out.

Definition run_go_vet (env : tool_env) (d : dir) : check_result :=
  if negb (which env "go") then mkCheck false true "go not found; skipping go vet"
  else let '(code, out) := run_cmd env d ["go"; "vet"; "./..."] in mkCheck (Z.eqb code 0) false out.

Record val_options := mkValOptions { validate_tsc : bool; validate_pytest : bool; validate_go : bool }.

(** The report of [run_validations]; [v_ok = None] is Python's [None]. *)
Record val_report := mkReport {
  v_checked : bool;
  v_ok : option bool;
  v_output : string;
  v_details : list (string * check_result);
  v_skipped : bool }.

Definition nl : string := String (ascii_of_nat 10) EmptyString.

(** One configured check: the state [(results, overall_ok, any_checked, outputs)]
    threaded through [run_validations]. *)
Definition vstate : Type := list (string * check_result) * bool * bool * list string.

Definition step_check (enabled : bool) (name header : string) (r : check_result) (st : vstate) : vstate :=
  let '(results, overall_ok, any_checked, outputs) := st in
  if enabled then
    (Dict.set String.eqb name r results,
     (if andb (negb (cr_ok r)) (negb (cr_skipped r)) then false else overall_ok),
     true,
     app outputs [header ++ nl ++ cr_output r])
  else st.

Definition run_validations (env : tool_env) (workdir : dir) (options : val_options) : val_report :=
  let st : vstate := ([], true, false, []) in
  let st := step_check (validate_tsc options) "tsc" "=== tsc ===" (run_tsc_check env workdir) st in
  let st := step_check (validate_pytest options) "pytest" "=== pytest ===" (run_pytests env workdir) st in
  let st := step_check (validate_go options) "go_vet" "=== go vet ===" (run_go_vet env workdir) st in
  let '(results, overall_ok, any_checked, outputs) := st in
  mkReport any_checked
           (if any_checked then Some overall_ok else None)
           (strip (join nl outputs))
           results
           (negb any_checked).

(** What [call_structured_generation] gives back to [attempt_repair]:
    an exception, or a parsed object whose [files] is a list of items. *)
Inductive llm_reply :=
| LlmRaise (err : string)
| LlmReturn (files_out : list file).

Record repair_result := mkRepair {
  r_attempts : nat;
  r_repaired_files : list file;
  r_applied : nat;
  r_ok : bool }.

(** The writes of [attempt_repair]: each is inside [try/except], so a
    failing write is skipped. Returns the directory and the number applied. *)
Fixpoint apply_candidates (fs : fs_env) (cands : list file) (d : dir) : dir * nat :=
  match cands with
  | [] => (d, 0)
  | cf :: r =>
      match fs_write fs d cf with
      | Some d1 => let '(d', n) := apply_candidates fs r d1 in (d', S n)
      | None => apply_candidates fs r d
      end
  end.

(** [attempt_repair] with [attempts_allowed] iterations of
    [for att in range(attempts_allowed)].  [llm k] is the reply of the
    [k]-th model call.  Every branch of the loop body returns, so the body
    runs at most once.  Result: the returned dict, the directory after the
    writes, and the number of model calls made. *)
Definition attempt_repair (llm : nat -> llm_reply) (fs : fs_env)
    (workdir : dir) (attempts_allowed : Z) : repair_result * dir * nat :=
  match Z.to_nat attempts_allowed with
  | O => (mkRepair 0 [] 0 false, workdir, 0)
  | S _ =>
      let attempts := 1 in
      match llm attempts with
      | LlmRaise _ => (mkRepair attempts [] 0 false, workdir, 1)
      | LlmReturn files_out =>
          let candidate_files := filter (fun it => negb (String.eqb (path it) "")) files_out in
          match candidate_files with
          | [] => (mkRepair attempts [] 0 false, workdir, 1)
          | _ =>
              let '(d', applied) := apply_candidates fs candidate_files workdir in
              (mkRepair attempts candidate_files applied (Nat.ltb 0 applied), d', 1)
          end
      end
  end.

(** Merge of the repaired files into [sanitized_files] in [generate_project]:
    replace the first entry with the same cleaned path, else append. *)
Fixpoint merge_one (rp : string) (nf : file) (l : list file) : list file * bool :=
  match l with
  | [] => ([], false)
  | ex :: r =>
      if String.eqb (clean_path (path ex)) rp then (nf :: r, true)
      else let '(r', b) := merge_one rp nf r in (ex :: r', b)
  end.

Fixpoint merge_repaired (rep_files : list file) (sanitized_files : list file) : list file :=
  match rep_files with
  | [] => sanitized_files
  | rf :: rest =>
      let rp := clean_path (path rf) in
      let nf := mkFile rp (content rf) in
      let '(l', replaced) := merge_one rp nf sanitized_files in
      merge_repaired rest (if replaced then l' else (sanitized_files ++ [nf])%list)
  end.

(** [validation_report] of [generate_project], with the attached repair
    summary when the re-validation did not report [ok]. *)
Record gen_validation := mkGenValidation {
  g_checked : bool;
  g_ok : option bool;
  g_output : string;
  g_skipped : bool;
  g_repair : option repair_result }.

(** How the validation step of [generate_project] ends: it raises (out of
    the [try/finally]) after [calls] repair model calls, or it returns the
    final files, the report and the number of repair model calls. *)
Inductive stage_outcome :=
| StageRaise (calls : nat)
| StageDone (files : list file) (report : gen_validation) (calls : nat).

(** The optional validation step of [generate_project] (codegen_agent.py),
    in a fresh (empty) scratch directory. *)
Definition validation_stage (env : tool_env) (llm : nat -> llm_reply) (fs : fs_env)
    (validate : bool) (sanitized_files : list file) : stage_outcome :=
  if negb validate then StageDone sanitized_files (mkGenValidation false None "" false None) 0
  else
    match write_files fs sanitized_files [] with
    | None => StageRaise 0
    | Some tmpdir =>
        let val_opts := mkValOptions true false false in
        let val_res := run_validations env tmpdir val_opts in
        let report := mkGenValidation (v_checked val_res) (v_ok val_res) (v_output val_res) (v_skipped val_res) None in
        if andb (v_checked val_res) (match v_ok val_res with Some false => true | _ => false end) then
          let '(repair_res, tmpdir1, calls) := attempt_repair llm fs tmpdir 1 in
          let files' := merge_repaired (r_repaired_files repair_res) sanitized_files in
          match write_files fs files' tmpdir1 with
          | None => StageRaise calls
          | Some tmpdir2 =>
              let val_after := run_validations env tmpdir2 val_opts in
              let ok_after := v_ok val_after in
              let repair := match ok_after with Some true => None | _ => Some repair_res end in
              StageDone files' (mkGenValidation (v_checked val_after) ok_after (v_output val_after) (v_skipped val_after) repair) calls
          end
        else StageDone sanitized_files report 0
    end.

End Validator.

(* ------------------------------------------------------------------ *)
(** ** Dependency resolver (core/dep_resolver.py) *)

Module Resolver.
Import Py.

(** [urllib.parse.quote(name, safe='')] on ASCII: letters, digits and
    [_.-~] are kept, every other character becomes [%XX]. *)
Definition hex_digit (n : nat) : ascii :=
  if Nat.ltb n 10 then ascii_of_nat (48 + n) else ascii_of_nat (55 + n).

Definition quote_char (c : ascii) : string :=
  let n := nat_of_ascii c in
  if orb (orb (andb (Nat.leb 65 n) (Nat.leb n 90)) (andb (Nat.leb 97 n) (Nat.leb n 122)))
         (orb (andb (Nat.leb 48 n) (Nat.leb n 57))
              (existsb (Ascii.eqb c) ["_"%char; "."%char; "-"%char; "~"%char]))
  then String c EmptyString
  else String "%"%char (String (hex_digit (n / 16)) (String (hex_digit (n mod 16)) EmptyString)).

Fixpoint quote (s : string) : string :=
  match s with
  | EmptyString => EmptyString
  | String c r => quote_char c ++ quote r
  end.

(** [str(n)] for an integer. *)
Fixpoint nat_digits (fuel n : nat) (acc : string) : string :=
  match fuel with
  | O => acc
  | S f =>
      let acc' := String (ascii_of_nat (48 + n mod 10)) acc in
      if Nat.ltb n 10 then acc' else nat_digits f (n / 10) acc'
  end.

Definition z_to_string (z : Z) : string :=
  if Z.ltb z 0 then "-" ++ nat_digits (S (Z.to_nat (- z))) (Z.to_nat (- z)) EmptyString
  else nat_digits (S (Z.to_nat z)) (Z.to_nat z) EmptyString.

(** Python truthiness of an optional string. *)
Definition truthy (v : option string) : bool :=
  match v with Some s => negb (String.eqb s "") | None => false end.

(** [a or b] on optional strings. *)
Definition py_or (a b : option string) : option string := if truthy a then a else b.

(** [sorted(...)] of strings (Python compares code points). *)
Fixpoint insert_sorted (x : string) (l : list string) : list string :=
  match l with
  | [] => [x]
  | y :: r => if String.leb x y then x :: l else y :: insert_sorted x r
  end.

Definition sorted_strings (l : list string) : list string := fold_right insert_sorted [] l.

Definition NPM_REGISTRY : string := "https://registry.npmjs.org".
Definition NPM_CACHE_TTL : Z := 24 * 3600.

(** A search hit of [_search_registry]: [{name, version, description, links}]. *)
Record candidate := mkCandidate {
  c_name : option string;
  c_version : option string;
  c_description : option string;
  c_links : list (string * string) }.

(** A [ResolvedDependency] dict: [candidates] is [None] when the key is absent. *)
Record resolved := mkResolved {
  d_name : string;
  d_version : option string;
  d_source : option string;
  d_url : option string;
  d_confidence : Q;
  d_candidates : option (list candidate) }.

(** Responses of [requests.get(f"{NPM_REGISTRY}/{encoded}")]: a 200 whose JSON
    has [dist-tags.latest], [version] and the keys of [versions]; another
    status code; or an exception (request, [.json()], ...). *)
Inductive reg_response :=
| Resp200 (latest : option string) (version : option string) (versions : list string)
| RespStatus (code : Z)
| RespRaise (err : string).

(** Network calls made by the resolver, in order. *)
Inductive net_call :=
| GetPackage (url : string)
| SearchQuery (text : string)
| NpmInstall.

Record reg_env := mkRegEnv {
  registry_get : string -> reg_response;
  search_registry : string -> list candidate;
  now : Z }.

Record cache_entry := mkEntry { ce_ver : option string; ce_ts : Z }.

Definition okey_eqb (a b : option string) : bool :=
  match a, b with
  | Some x, Some y => String.eqb x y
  | None, None => true
  | _, _ => false
  end.

(** The loop state of [_resolve_with_registry]. *)
Record rstate := mkRState {
  rs_cache : list (option string * cache_entry);
  rs_pinned : list (option string * option string);
  rs_warnings : list string;
  rs_resolved : list resolved;
  rs_net : list net_call }.

Definition unresolved (name : string) (cands : list candidate) : resolved :=
  mkResolved name None None None 0 (Some cands).

(** [_search_registry(name)]: one search request. *)
Definition search (env : reg_env) (name : string) (st : rstate) : list candidate * rstate :=
  (search_registry env name,
   mkRState (rs_cache st) (rs_pinned st) (rs_warnings st) (rs_resolved st)
            (rs_net st ++ [SearchQuery name])%list).

Definition add_resolved (r : resolved) (st : rstate) : rstate :=
  mkRState (rs_cache st) (rs_pinned st) (rs_warnings st) (rs_resolved st ++ [r])%list (rs_net st).

Definition add_warning (w : string) (st : rstate) : rstate :=
  mkRState (rs_cache st) (rs_pinned st) (rs_warnings st ++ [w])%list (rs_resolved st) (rs_net st).

Definition set_pinned (k v : option string) (st : rstate) : rstate :=
  mkRState (rs_cache st) (Dict.set okey_eqb k v (rs_pinned st)) (rs_warnings st) (rs_resolved st) (rs_net st).

Definition set_cache (k : option string) (e : cache_entry) (st : rstate) : rstate :=
  mkRState (Dict.set okey_eqb k e (rs_cache st)) (rs_pinned st) (rs_warnings st) (rs_resolved st) (rs_net st).

Definition add_net (c : net_call) (st : rstate) : rstate :=
  mkRState (rs_cache st) (rs_pinned st) (rs_warnings st) (rs_resolved st) (rs_net st ++ [c])%list.

(** The body of [for name in deps.keys()] in [_resolve_with_registry]. *)
Definition resolve_name (env : reg_env) (name : string) (st : rstate) : rstate :=
  let fresh_hit :=
    match Dict.get okey_eqb (Some name) (rs_cache st) with
    | Some entry => if Z.ltb (now env - ce_ts entry) NPM_CACHE_TTL then Some entry else None
    | None => None
    end in
  match fresh_hit with
  | Some entry =>
      let ver := ce_ver entry in
      add_resolved (mkResolved name ver (Some "npm-cache") (Some (NPM_REGISTRY ++ "/" ++ quote name)) (95 # 100) None)
        (set_pinned (Some name) ver st)
  | None =>
      let encoded := quote name in
      let url := NPM_REGISTRY ++ "/" ++ encoded in
      let st := add_net (GetPackage url) st in
      match registry_get env url with
      | Resp200 latest version versions =>
          let ver := py_or latest version in
          let ver :=
            if truthy ver then ver
            else match rev (sorted_strings versions) with
                 | v :: _ => Some v
                 | [] => ver
                 end in
          if truthy ver then
            set_cache (Some name) (mkEntry ver (now env))
              (add_resolved (mkResolved name ver (Some "npm") (Some url) (98 # 100) None)
                 (set_pinned (Some name) ver st))
          else
            let '(candidates, st) := search env name st in
            add_warning ("no version found for " ++ name ++ " in registry response")
              (add_resolved (unresolved name candidates) st)
      | RespStatus 404 =>
          let '(candidates, st) := search env name st in
          match candidates with
          | top :: _ =>
              add_warning (name ++ " not found; suggested candidates returned")
                (add_resolved (unresolved name candidates)
                   (set_cache (c_name top) (mkEntry (c_version top) (now env))
                      (set_pinned (c_name top) (c_version top) st)))
          | [] =>
              add_warning ("npm registry returned 404 for " ++ name)
                (add_resolved (unresolved name []) st)
          end
      | RespStatus code =>
          add_warning ("npm registry returned " ++ z_to_string code ++ " for " ++ name) st
      | RespRaise e =>
          add_resolved (unresolved name [])
            (add_warning ("failed to query registry for " ++ name ++ ": " ++ e) st)
      end
  end.

Fixpoint resolve_names (env : reg_env) (names : list string) (st : rstate) : rstate :=
  match names with
  | [] => st
  | n :: r => resolve_names env r (resolve_name env n st)
  end.

(** The result dict of the resolver functions, with the saved cache and
    the network calls made. *)
Record resolve_result := mkResult {
  rp_resolved : list resolved;
  rp_pinned : list (option string * option string);
  rp_lockfile_type : string;
  rp_warnings : list string;
  rp_cache : list (option string * cache_entry);
  rp_net : list net_call }.

(** [deps]: the requested [name -> range] dict. *)
Definition deps_t := list (string * string).

(** [_resolve_with_registry(deps)], from the cache [_load_cache()] returned. *)
Definition _resolve_with_registry (env : reg_env) (cache : list (option string * cache_entry))
    (net : list net_call) (deps : deps_t) : resolve_result :=
  let st := resolve_names env (map fst deps) (mkRState cache [] [] [] net) in
  mkResult (rs_resolved st) (rs_pinned st) "registry-fallback" (rs_warnings st) (rs_cache st) (rs_net st).

(** A [package-lock.json]: the top-level [dependencies] (name -> the
    [version] of its entry, [None] when not a dict or no version) and
    [packages] (path -> version). *)
Record lockfile := mkLock {
  lf_dependencies : list (string * option string);
  lf_packages : list (string * option string) }.

Definition str_in (x : string) (l : list string) : bool := existsb (String.eqb x) l.

Fixpoint pin_from_deps (deps : list (string * option string)) (names : list string)
    (pinned : list (string * string)) : list (string * string) :=
  match names with
  | [] => pinned
  | name :: r =>
      match Dict.get String.eqb name deps with
      | Some (Some ver) => if truthy (Some ver) then pin_from_deps deps r (Dict.set String.eqb name ver pinned)
                           else pin_from_deps deps r pinned
      | _ => pin_from_deps deps r pinned
      end
  end.

Fixpoint pin_from_packages (packages : list (string * option string)) (names : list string)
    (pinned : list (string * string)) : list (string * string) :=
  match packages with
  | [] => pinned
  | (pkg_path, meta) :: r =>
      if startswith "node_modules/" pkg_path then
        let nm := drop 13 pkg_path in
        match meta with
        | Some ver => if andb (str_in nm names) (truthy (Some ver))
                      then pin_from_packages r names (Dict.set String.eqb nm ver pinned)
                      else pin_from_packages r names pinned
        | None => pin_from_packages r names pinned
        end
      else pin_from_packages r names pinned
  end.

(** [_extract_pinned_from_lockfile]. *)
Definition _extract_pinned_from_lockfile (lock : lockfile) (requested_names : list string) : list (string * string) :=
  let pinned := pin_from_deps (lf_dependencies lock) requested_names [] in
  if Nat.ltb (length pinned) (length requested_names)
  then pin_from_packages (lf_packages lock) requested_names pinned
  else pinned.

(** Outcome of [_run_npm_package_lock_only] as seen by [_resolve_with_npm]:
    [{"ok": True, "lockfile": ...}], [{"ok": False, "error": ...}] (no
    lockfile key on that path), or an exception. *)
Inductive npm_outcome :=
| NpmOk (lock : lockfile)
| NpmErr (err : string)
| NpmRaise (err : string).

(** [_resolve_with_npm(deps)]: pinned names and warnings. *)
Definition _resolve_with_npm (npm : npm_outcome) (deps : deps_t) : list (string * string) * list string :=
  match npm with
  | NpmOk lock => (_extract_pinned_from_lockfile lock (map fst deps), [])
  | NpmErr err => ([], ["npm install failed: " ++ err])
  | NpmRaise e => ([], ["npm resolution failed: " ++ e])
  end.

(** [resolve_and_pin(deps, language)]; [npm_available] is [_npm_available()]. *)
Definition resolve_and_pin (env : reg_env) (cache : list (option string * cache_entry))
    (npm_available : bool) (npm : npm_outcome) (deps : deps_t) (language : string) : resolve_result :=
  match deps with
  | [] => mkResult [] [] "none" [] cache []
  | _ =>
      if andb (str_in language ["js"; "ts"; "node"; "tsx"]) npm_available then
        let '(npm_pinned, npm_warnings) := _resolve_with_npm npm deps in
        let missing := filter (fun n => negb (Dict.mem String.eqb n npm_pinned)) (map fst deps) in
        let resolved_combined :=
          map (fun '(n, v) => mkResolved n (Some v) (Some "npm")
                                (Some (NPM_REGISTRY ++ "/" ++ quote n)) (98 # 100) None) npm_pinned in
        let pinned := map (fun '(n, v) => (Some n, Some v)) npm_pinned in
        match missing with
        | [] => mkResult resolved_combined pinned "package-lock" npm_warnings cache [NpmInstall]
        | _ =>
            let fallback := _resolve_with_registry env cache [NpmInstall]
                              (filter (fun '(n, _) => str_in n missing) deps) in
            mkResult (resolved_combined ++ rp_resolved fallback)%list
                     (fold_left (fun acc '(k, v) => Dict.set okey_eqb k v acc) (rp_pinned fallback) pinned)
                     "package-lock"
                     (npm_warnings ++ rp_warnings fallback)%list
                     (rp_cache fallback) (rp_net fallback)
        end
      else _resolve_with_registry env cache [] deps
  end.

(** The legacy resolver of core/chain.py (not imported by any module):
    [get_latest_npm_version] and [_pin_dep_version] with the curated map
    [CURATED_DEP_MAP] (stack -> (dependencies, devDependencies)). *)
Definition curated_map := list (string * (list (string * string) * list (string * string))).

Fixpoint curated_lookup (name : string) (m : curated_map) : option string :=
  match m with
  | [] => None
  | (_, (deps, devs)) :: r =>
      match Dict.get String.eqb name deps with
      | Some v => Some v
      | None => match Dict.get String.eqb name devs with
                | Some v => Some v
                | None => curated_lookup name r
                end
      end
  end.

Definition get_latest_npm_version (env : reg_env) (cache : list (option string * cache_entry))
    (pkg_name : string) : option string * list net_call :=
  match Dict.get okey_eqb (Some pkg_name) cache with
  | Some entry =>
      if Z.ltb (now env - ce_ts entry) NPM_CACHE_TTL then (ce_ver entry, []) else
      let url := NPM_REGISTRY ++ "/" ++ pkg_name in
      (match registry_get env url with
       | Resp200 latest version _ => if truthy latest then latest else version
       | _ => None
       end, [GetPackage url])
  | None =>
      let url := NPM_REGISTRY ++ "/" ++ pkg_name in
      (match registry_get env url with
       | Resp200 latest version _ => if truthy latest then latest else version
       | _ => None
       end, [GetPackage url])
  end.

(** [_pin_dep_version(name, requested)]; [requested] is [Some s] for a
    [str]. Returns the pair and the network calls made. *)
Definition _pin_dep_version (curated : curated_map) (env : reg_env)
    (cache : list (option string * cache_entry)) (name : string) (requested : option string)
    : (string * string) * list net_call :=
  match curated_lookup name curated with
  | Some v => ((name, v), [])
  | None =>
      let '(latest, net) := get_latest_npm_version env cache name in
      if truthy latest then ((name, match latest with Some l => l | None => "" end), net)
      else
        match requested with
        | Some r =>
            let stripped := lstrip_chars ["^"%char; "~"%char] r in
            if negb (String.eqb stripped "") then ((name, stripped), net) else ((name, "1.0.0"), net)
        | None => ((name, "1.0.0"), net)
        end
  end.

(** The entry [resolve_and_pin_dependencies] records for a pinned dependency. *)
Record chain_resolved := mkChainResolved { ch_name : string; ch_version : string; ch_origin : string }.

Definition chain_entry (pinned : string * string) : chain_resolved :=
  mkChainResolved (fst pinned) (snd pinned) "curated_or_registry".

End Resolver.

(* ------------------------------------------------------------------ *)
(** ** Streaming emitter ([stream_generate_project], codegen_agent.py) *)

Module Stream.
Import PosixPath Files Followup.

(** Events [{"event": type, "payload": ...}]; dependency, validation,
    repair and new_dependencies events are kept by type only. *)
Inductive event :=
| EvFollowups (fs : list followup)
| EvFileStart (p : string)
| EvFileChunk (p : string) (chunk : string) (index : nat) (final : bool)
| EvFileComplete (p : string) (size : nat)
| EvWarning (w : string)
| EvOther (kind : string)
| EvDone (files_count : nat).

(** [for i in range(0, len(content), STREAM_CHUNK_SZ)] ([fuel] bounds the
    iterations; [len(content)] of them suffice for a positive step). *)
Fixpoint chunk_events (p content : string) (sz i fuel : nat) : list event :=
  match fuel with
  | O => []
  | S f =>
      if Nat.ltb i (String.length content) then
        EvFileChunk p (substring i sz content) (i / sz) (Nat.leb (String.length content) (i + sz))
          :: chunk_events p content sz (i + sz) f
      else []
  end.

(** The events of one file in [_stream_files_list]. *)
Definition file_events (sz : nat) (f : file) : list event :=
  let p := normpath (path f) in
  let c := content f in
  EvFileStart p :: (chunk_events p c sz 0 (String.length c) ++ [EvFileComplete p (String.length c)])%list.

(** [_stream_files_list(files_list)]: the events yielded and the files
    appended to [accumulated_files]. *)
Fixpoint _stream_files_list (sz : nat) (files_list : list file) : list event * list file :=
  match files_list with
  | [] => ([], [])
  | f :: rest =>
      let '(evs, acc) := _stream_files_list sz rest in
      ((file_events sz f ++ evs)%list, mkFile (normpath (path f)) (content f) :: acc)
  end.

(** The [metadata] dict of the parsed reply: its [warnings] ([None]
    read as empty) and its [new_dependencies] entry (empty when absent). *)
Record gen_metadata := mkGenMetadata {
  m_warnings : list string;
  m_new_dependencies : list string }.

(** The parsed model reply: [files], [new_dependencies] (empty when
    absent) and [metadata], which is [None] when the reply sets it to null
    ([GenerateResponseModel.metadata] is optional, and
    [parsed.setdefault("metadata", {})] keeps an explicit [None]). *)
Record gen_reply := mkGenReply {
  g_files : list file;
  g_new_dependencies : list string;
  g_metadata : option gen_metadata }.

(** The single generation (or scaffold) call: [call_structured_generation]
    raises after its retries, or returns the parsed reply. *)
Inductive gen_call :=
| GenRaise (err : string)
| GenReturn (reply : gen_reply).

(** The files streamed: the delta against [base_files_map] when it is
    non-empty, else the generated files as returned. *)
Definition emitted_files (base_files : option base_map) (reply : gen_reply) : list file :=
  match base_files with
  | Some m => match m with [] => g_files reply | _ => _compute_delta_files (g_files reply) m end
  | None => g_files reply
  end.

(** [stream_generate_project]: [gate] is the followups list of the gate
    when questions were requested; [base_files] is [Some m] when the payload
    has a [base_files] list (with the map [m] built from it); [call] the
    single generation (or scaffold) call; [post] the dependency and
    validation events computed from the accumulated files (they do not
    change [accumulated_files], and their [try/except] never lets an
    exception out).  Result: the events yielded, and whether the generator
    then raised.  [parsed.get("metadata", {}).get(...)] raises
    [AttributeError] when [metadata] is [None]: for [new_dependencies]
    (only read with a non-empty base map, and only when the top-level
    [new_dependencies] is empty) and for [warnings]. *)
Definition stream_generate_project (sz : nat) (request_questions : bool) (gate : list followup)
    (base_files : option base_map) (call : gen_call) (post : list file -> list event)
    : list event * bool :=
  match (if request_questions then gate else []) with
  | _ :: _ => ([EvFollowups gate], false)
  | [] =>
      match call with
      | GenRaise _ => ([], true)
      | GenReturn reply =>
          let files := emitted_files base_files reply in
          let '(file_evs, accumulated_files) := _stream_files_list sz files in
          let nd : option (list string) :=
            match base_files with
            | Some (_ :: _) =>
                match g_new_dependencies reply with
                | [] => match g_metadata reply with
                        | Some m => Some (m_new_dependencies m)
                        | None => None
                        end
                | (_ :: _) as l => Some l
                end
            | _ => Some []
            end in
          match nd with
          | None => (file_evs, true)
          | Some nd =>
              let nd_evs := match nd with [] => [] | _ => [EvOther "new_dependencies"] end in
              match g_metadata reply with
              | None => ((file_evs ++ nd_evs)%list, true)
              | Some m =>
                  let warn_evs := map EvWarning (m_warnings m) in
                  let post_evs := match accumulated_files with [] => [] | _ => post accumulated_files end in
                  ((file_evs ++ nd_evs ++ warn_evs ++ post_evs ++ [EvDone (length accumulated_files)])%list, false)
              end
          end
      end
  end.

End Stream.

(* ------------------------------------------------------------------ *)
(** ** More string primitives and [utils/file_helpers.validate_file_tree] *)

Module PyMore.
Import Py.

(** [c in s] for a one-character [c]. *)
Fixpoint has_char (c : ascii) (s : string) : bool :=
  match s with
  | EmptyString => false
  | String d r => orb (Ascii.eqb c d) (has_char c r)
  end.

(** [s.replace(old, new)] for a non-empty [old]: occurrences are replaced
    left to right without overlap; each step consumes at least one
    character, so [String.length s] steps suffice. *)
Fixpoint replace_fuel (fuel : nat) (old new s : string) : string :=
  match fuel with
  | O => s
  | S f =>
      match s with
      | EmptyString => EmptyString
      | String c r =>
          if String.prefix old s
          then new ++ replace_fuel f old new (substring (String.length old) (String.length s) s)
          else String c (replace_fuel f old new r)
      end
  end.

Definition replace_str (old new s : string) : string := replace_fuel (String.length s) old new s.

End PyMore.

Module FileHelpers.
Import Py PyMore Files.

(** [validate_file_tree(files)]: a missing or empty path becomes
    ["unknown.txt"] ([f.get("path") or "unknown.txt"]), then every [".."]
    is removed; a missing content is [""]. *)
Definition validate_file_tree (files : list file) : list file :=
  map (fun f =>
         let p := if String.eqb (path f) "" then "unknown.txt" else path f in
         let p := replace_str ".." "" p in
         mkFile p (content f)) files.

End FileHelpers.

(** [chain.chunk_components]: [components[i:i + chunk_size]] for [i] in
    [range(0, len(components), chunk_size)]; a step of 0 makes [range]
    raise [ValueError] ([None]), a negative step yields nothing. *)
Module Chain.

Fixpoint chunk_loop {A : Type} (components : list A) (sz i fuel : nat) : list (list A) :=
  match fuel with
  | O => []
  | S f =>
      if Nat.ltb i (length components)
      then firstn sz (skipn i components) :: chunk_loop components sz (i + sz) f
      else []
  end.

Definition chunk_components {A : Type} (components : list A) (chunk_size : Z) : option (list (list A)) :=
  if Z.eqb chunk_size 0 then None
  else if Z.ltb chunk_size 0 then Some []
  else Some (chunk_loop components (Z.to_nat chunk_size) 0 (length components)).

End Chain.

(* ================================================================== *)
(** * Properties *)

(* ------------------------------------------------------------------ *)
(** ** Followup gate *)

Module FollowupFacts.
Import Py Followup.

Lemma rstrip_ws_cons (c : ascii) (r : string) :
  rstrip_ws (String c r) =
  match rstrip_ws r with
  | EmptyString => if is_space c then EmptyString else String c EmptyString
  | _ => String c (rstrip_ws r)
  end.
Proof. reflexivity. Qed.

Lemma rstrip_ws_idem (s : string) : rstrip_ws (rstrip_ws s) = rstrip_ws s.
Proof.
  induction s as [|c r IH]; [reflexivity|].
  rewrite (rstrip_ws_cons c r). destruct (rstrip_ws r) as [|a b] eqn:E.
  - destruct (is_space c) eqn:Hc; [reflexivity|]. rewrite rstrip_ws_cons. simpl. rewrite Hc. reflexivity.
  - rewrite (rstrip_ws_cons c (String a b)). rewrite IH. reflexivity.
Qed.

Lemma lstrip_ws_head (s : string) :
  lstrip_ws s = EmptyString \/ exists c r, lstrip_ws s = String c r /\ is_space c = false.
Proof.
  induction s as [|c r IH]; [left; reflexivity|].
  simpl. destruct (is_space c) eqn:Hc; [exact IH|].
  right. exists c, r. split; [reflexivity|exact Hc].
Qed.

Lemma rstrip_ws_nonspace_head (c : ascii) (r : string) :
  is_space c = false -> exists r', rstrip_ws (String c r) = String c r'.
Proof.
  intros Hc. rewrite rstrip_ws_cons. destruct (rstrip_ws r) as [|a b].
  - rewrite Hc. exists EmptyString. reflexivity.
  - exists (String a b). reflexivity.
Qed.

Lemma strip_idem (s : string) : strip (strip s) = strip s.
Proof.
  unfold strip.
  destruct (lstrip_ws_head s) as [E | [c [r [E Hc]]]]; rewrite E.
  - reflexivity.
  - destruct (rstrip_ws_nonspace_head c r Hc) as [r' E'].
    rewrite E'. simpl. rewrite Hc. rewrite <- E'. apply rstrip_ws_idem.
Qed.

Lemma normalize_strip (q : string) : _normalize (strip q) = _normalize q.
Proof. unfold _normalize. rewrite strip_idem. reflexivity. Qed.

(** Every question accepted by the dedupe loop normalizes to a text not in
    the starting [seen_qs]. *)
Lemma dedupe_loop_fresh (ans : list string) (cands : list followup) :
  forall (seen : list string) (o : followup),
    In o (dedupe_loop ans cands seen) -> ~ In (_normalize (question o)) seen.
Proof.
  induction cands as [|cand rest IH]; intros seen o Hin; simpl in Hin; [contradiction|].
  destruct (String.eqb (strip (question cand)) "") eqn:E1; [eapply IH; eauto|].
  destruct (existsb (String.eqb (_normalize (question cand))) seen) eqn:E2; [eapply IH; eauto|].
  match type of Hin with
  | In o (if ?b then _ else _) => destruct b eqn:E3
  end; [eapply IH; eauto|].
  destruct Hin as [<- | Hin].
  - simpl. rewrite normalize_strip. intros Hs.
    assert (existsb (String.eqb (_normalize (question cand))) seen = true) as Hc.
    { apply existsb_exists. exists (_normalize (question cand)). split; [exact Hs|].
      apply String.eqb_refl. }
    congruence.
  - intros Hs. apply (IH _ _ Hin). right. exact Hs.
Qed.

Lemma in_firstn {A} (n : nat) (l : list A) (x : A) : In x (firstn n l) -> In x l.
Proof.
  intros H. rewrite <- (firstn_skipn n l). apply in_or_app. left. exact H.
Qed.

(** C9: no question returned by [generate_followup_questions] normalizes
    (whitespace collapsed, lower-cased) to the normalization of a caller
    supplied previous question, whatever its casing or spacing. *)
Theorem gate_excludes_history_questions (candidates : list followup)
    (previous_questions followup_answers : list string) (max_questions : Z) (min_urgency : Q) :
  Forall (fun o => Forall (fun h => _normalize (question o) <> _normalize h) previous_questions)
         (generate_followup_questions candidates previous_questions followup_answers
                                      max_questions min_urgency).
Proof.
  apply Forall_forall. intros o Ho. apply Forall_forall. intros h Hh Heq.
  unfold generate_followup_questions, filter_candidates in Ho.
  apply in_firstn in Ho. apply filter_In in Ho. destruct Ho as [Ho _].
  apply dedupe_loop_fresh in Ho. apply Ho. rewrite Heq. apply in_map. exact Hh.
Qed.

(** C4 (as the code has it): when questions are requested and the dedupe
    and urgency filtering leave no candidate, the gate returns an empty
    followups list (no fallback question) and [generate_project] goes on
    to generation. *)
Theorem gate_empty_after_filtering_proceeds (candidates : list followup)
    (previous_questions followup_answers : list string) (max_questions : Z) (min_urgency : Q) :
  filter_candidates candidates previous_questions followup_answers min_urgency = [] ->
  generate_followup_questions candidates previous_questions followup_answers max_questions min_urgency = []
  /\ generate_project_gate true
       (generate_followup_questions candidates previous_questions followup_answers
                                    max_questions min_urgency) = ProceedToGeneration.
Proof.
  intros H. unfold generate_followup_questions. rewrite H.
  rewrite firstn_nil. split; reflexivity.
Qed.

Lemma gate_empty_after_filtering_proceeds_witness :
  filter_candidates [mkFollowup "q1" "which  PAGES do you need?" (1#2)]
                    ["Which pages do you need?"] [] (1#4) = []
  /\ (generate_followup_questions [mkFollowup "q1" "which  PAGES do you need?" (1#2)]
        ["Which pages do you need?"] [] 5 (1#4) = []
      /\ generate_project_gate true
           (generate_followup_questions [mkFollowup "q1" "which  PAGES do you need?" (1#2)]
              ["Which pages do you need?"] [] 5 (1#4)) = ProceedToGeneration).
Proof.
  assert (H : filter_candidates [mkFollowup "q1" "which  PAGES do you need?" (1#2)]
                ["Which pages do you need?"] [] (1#4) = []) by (vm_compute; reflexivity).
  split; [exact H|]. apply (gate_empty_after_filtering_proceeds _ _ _ 5 _ H).
Defined.

(** C4 counterexample: questions were requested, the model's only question
    repeats the history, and the gate returns no question at all (not one
    fallback question); [generate_project] then proceeds. *)
Lemma gate_history_repeat_no_fallback :
  let out := generate_followup_questions [mkFollowup "q1" " which PAGES  do you need? " (1#2)]
               ["Which pages do you need?"] [] 5 (1#4) in
  length out = 0 /\ generate_project_gate true out = ProceedToGeneration.
Proof. vm_compute. split; reflexivity. Qed.

End FollowupFacts.

(* ------------------------------------------------------------------ *)
(** ** Overlay delta *)

Module OverlayFacts.
Import Py PosixPath Paths Files.

Lemma file_eta (f : file) : mkFile (path f) (content f) = f.
Proof. destruct f; reflexivity. Qed.

Lemma compute_delta_sound (emitted : list file) (base : base_map) (x : file) :
  In x (_compute_delta_files emitted base) ->
  basename (path x) <> "package.json" /\ base_get (path x) base <> Some (content x)
  /\ exists f, In f emitted /\ path x = _normalize_path (path f) /\ content x = content f.
Proof.
  induction emitted as [|f rest IH]; simpl; intros H; [contradiction|].
  assert (Hrest : In x (_compute_delta_files rest base) ->
    basename (path x) <> "package.json" /\ base_get (path x) base <> Some (content x)
    /\ exists g, (f = g \/ In g rest) /\ path x = _normalize_path (path g) /\ content x = content g).
  { intros Hx. destruct (IH Hx) as [A [B [g [Hg [Pg Cg]]]]].
    repeat split; auto. exists g. auto. }
  destruct (String.eqb (basename (_normalize_path (path f))) "package.json") eqn:Ep; [auto|].
  apply String.eqb_neq in Ep.
  destruct (base_get (_normalize_path (path f)) base) as [bc|] eqn:Eb.
  - destruct (negb (String.eqb bc (content f))) eqn:Ed; [|auto].
    destruct H as [<- | H]; [|auto].
    simpl. split; [exact Ep|]. split.
    + rewrite Eb. intros Heq. injection Heq as Heq. subst bc.
      rewrite String.eqb_refl in Ed. discriminate.
    + exists f. auto.
  - destruct H as [<- | H]; [|auto].
    simpl. split; [exact Ep|]. split.
    + rewrite Eb. discriminate.
    + exists f. auto.
Qed.

Lemma compute_delta_complete (emitted : list file) (base : base_map) (f : file) :
  In f emitted ->
  basename (_normalize_path (path f)) <> "package.json" ->
  base_get (_normalize_path (path f)) base <> Some (content f) ->
  In (mkFile (_normalize_path (path f)) (content f)) (_compute_delta_files emitted base).
Proof.
  intros Hin Hp Hb. induction emitted as [|g rest IH]; [contradiction|].
  simpl. destruct Hin as [-> | Hin].
  - apply String.eqb_neq in Hp. rewrite Hp.
    destruct (base_get (_normalize_path (path f)) base) as [bc|] eqn:Eb.
    + destruct (String.eqb bc (content f)) eqn:Ed.
      * apply String.eqb_eq in Ed. subst bc. contradiction.
      * simpl. left. reflexivity.
    + left. reflexivity.
  - specialize (IH Hin).
    destruct (String.eqb (basename (_normalize_path (path g))) "package.json"); [exact IH|].
    destruct (base_get (_normalize_path (path g)) base) as [bc|];
      [destruct (negb (String.eqb bc (content g)))|]; simpl; auto.
Qed.

Definition binary_item (it : file) : bool :=
  match _safe_normalize (path it) with Some sp => is_binary_path sp | None => false end.

Lemma overlay_candidates_sound (items cands : list file) (c : file) :
  overlay_candidates items = Some cands -> In c cands ->
  exists it, In it items /\ _safe_normalize (path it) = Some (path c) /\ content c = content it
  /\ is_binary_path (path c) = false /\ basename (path c) <> "package.json".
Proof.
  revert cands. induction items as [|it rest IH]; simpl; intros cands Hc H.
  { injection Hc as <-. contradiction. }
  assert (Hrest : forall cs, overlay_candidates rest = Some cs -> In c cs -> exists it', (it = it' \/ In it' rest)
     /\ _safe_normalize (path it') = Some (path c) /\ content c = content it'
     /\ is_binary_path (path c) = false /\ basename (path c) <> "package.json").
  { intros cs Hcs Hin. destruct (IH cs Hcs Hin) as [it' [A B]]. exists it'. auto. }
  destruct (_safe_normalize (path it)) as [sp|] eqn:Es; [| exact (Hrest cands Hc H)].
  destruct (is_binary_path sp) eqn:Eb; [discriminate |].
  destruct (String.eqb (basename sp) "package.json") eqn:Ep; [exact (Hrest cands Hc H) |].
  destruct (overlay_candidates rest) as [cs |] eqn:Er; [| discriminate].
  injection Hc as <-. destruct H as [<- | H]; [| exact (Hrest cs eq_refl H)].
  exists it. simpl. repeat split; auto. apply String.eqb_neq. exact Ep.
Qed.

Lemma overlay_candidates_complete (items cands : list file) (it : file) (sp : string) :
  overlay_candidates items = Some cands ->
  In it items -> _safe_normalize (path it) = Some sp ->
  is_binary_path sp = false -> basename sp <> "package.json" ->
  In (mkFile sp (content it)) cands.
Proof.
  intros Hc Hin Hs Hb Hp. revert cands Hc. induction items as [|g rest IH]; intros cands Hc; [contradiction|].
  simpl in Hc. destruct Hin as [-> | Hin].
  - rewrite Hs, Hb in Hc. apply String.eqb_neq in Hp. rewrite Hp in Hc.
    destruct (overlay_candidates rest); [| discriminate]. injection Hc as <-. left. reflexivity.
  - destruct (_safe_normalize (path g)) as [sg|]; [| exact (IH Hin cands Hc)].
    destruct (is_binary_path sg); [discriminate |].
    destruct (String.eqb (basename sg) "package.json"); [exact (IH Hin cands Hc) |].
    destruct (overlay_candidates rest) as [cs |]; [| discriminate].
    injection Hc as <-. right. exact (IH Hin cs eq_refl).
Qed.

Lemma overlay_candidates_none (items : list file) :
  overlay_candidates items = None <-> Exists (fun it => binary_item it = true) items.
Proof.
  induction items as [|it rest IH]; simpl.
  { split; [discriminate | intros H; inversion H]. }
  rewrite Exists_cons, <- IH. unfold binary_item.
  destruct (_safe_normalize (path it)) as [sp|]; [| intuition discriminate].
  destruct (is_binary_path sp); [tauto |].
  destruct (String.eqb (basename sp) "package.json"); [intuition discriminate |].
  destruct (overlay_candidates rest); intuition discriminate.
Qed.

Lemma overlay_delta_iff (cands : list file) (base : base_map) (x : file) :
  In x (overlay_delta cands base) <-> In x cands /\ base_get (path x) base <> Some (content x).
Proof.
  induction cands as [|cf rest IH]; simpl; [tauto|].
  destruct (base_get (path cf) base) as [oc|] eqn:Eb.
  - destruct (String.eqb oc (content cf)) eqn:Ed; simpl.
    + apply String.eqb_eq in Ed. subst oc. rewrite IH. split.
      * intros [A B]. auto.
      * intros [[<- | A] B]; [contradiction|auto].
    + rewrite file_eta. rewrite IH. split.
      * intros [<- | [A B]]; [|auto]. split; [auto|]. rewrite Eb. intros Heq.
        injection Heq as Heq. subst oc. rewrite String.eqb_refl in Ed. discriminate.
      * intros [[<- | A] B]; auto.
  - simpl. rewrite file_eta. rewrite IH. split.
    + intros [<- | [A B]]; [|auto]. split; [auto|]. rewrite Eb. discriminate.
    + intros [[<- | A] B]; auto.
Qed.

(** In overlay mode no delta entry equals the base content at its
    normalized path and none is named [package.json] (in any directory);
    [_compute_delta_files] (generate_project and the stream) keeps every
    other emitted file that is new or differs; the [/overlay] endpoint,
    when it returns, keeps every such file whose path [_safe_normalize]
    accepts and that has no binary image extension. *)
Theorem overlay_delta_spec :
  (forall (emitted : list file) (base : base_map) (x : file),
      In x (_compute_delta_files emitted base) ->
      basename (path x) <> "package.json" /\ base_get (path x) base <> Some (content x))
  /\ (forall (emitted : list file) (base : base_map) (f : file),
      In f emitted ->
      basename (_normalize_path (path f)) <> "package.json" ->
      base_get (_normalize_path (path f)) base <> Some (content f) ->
      In (mkFile (_normalize_path (path f)) (content f)) (_compute_delta_files emitted base))
  /\ (forall (items : list file) (base : base_map) (ds : list file) (x : file),
      generate_overlay_delta items base = Some ds -> In x ds ->
      basename (path x) <> "package.json" /\ base_get (path x) base <> Some (content x))
  /\ (forall (items : list file) (base : base_map) (ds : list file) (it : file) (sp : string),
      generate_overlay_delta items base = Some ds ->
      In it items -> _safe_normalize (path it) = Some sp ->
      is_binary_path sp = false -> basename sp <> "package.json" ->
      base_get sp base <> Some (content it) ->
      In (mkFile sp (content it)) ds).
Proof.
  split; [|split; [|split]].
  - intros emitted base x H. destruct (compute_delta_sound emitted base x H) as [A [B _]]. auto.
  - intros. apply compute_delta_complete; assumption.
  - intros items base ds x Hd H. unfold generate_overlay_delta in Hd.
    destruct (overlay_candidates items) as [cands |] eqn:Ec; [| discriminate].
    injection Hd as <-.
    apply overlay_delta_iff in H. destruct H as [H B]. split; [|exact B].
    destruct (overlay_candidates_sound items cands x Ec H) as [it [_ [_ [_ [_ P]]]]]. exact P.
  - intros items base ds it sp Hd Hin Hs Hb Hp Hbase. unfold generate_overlay_delta in Hd.
    destruct (overlay_candidates items) as [cands |] eqn:Ec; [| discriminate].
    injection Hd as <-.
    apply overlay_delta_iff. split.
    + apply (overlay_candidates_complete items cands it sp Ec Hin Hs Hb Hp).
    + exact Hbase.
Qed.

Lemma overlay_delta_spec_witness :
  generate_overlay_delta [mkFile "src/a.js" "new"] [("src/a.js", "old")] = Some [mkFile "src/a.js" "new"]
  /\ In (mkFile "src/a.js" "new") [mkFile "src/a.js" "new"]
  /\ _safe_normalize (path (mkFile "src/a.js" "new")) = Some "src/a.js"
  /\ is_binary_path "src/a.js" = false
  /\ basename "src/a.js" <> "package.json"
  /\ base_get "src/a.js" [("src/a.js", "old")] <> Some (content (mkFile "src/a.js" "new"))
  /\ In (mkFile "src/a.js" (content (mkFile "src/a.js" "new"))) [mkFile "src/a.js" "new"].
Proof.
  assert (H0 : generate_overlay_delta [mkFile "src/a.js" "new"] [("src/a.js", "old")]
               = Some [mkFile "src/a.js" "new"]) by (vm_compute; reflexivity).
  assert (H1 : In (mkFile "src/a.js" "new") [mkFile "src/a.js" "new"]) by (left; reflexivity).
  assert (H2 : _safe_normalize (path (mkFile "src/a.js" "new")) = Some "src/a.js") by (vm_compute; reflexivity).
  assert (H3 : is_binary_path "src/a.js" = false) by (vm_compute; reflexivity).
  assert (H4 : basename "src/a.js" <> "package.json") by (vm_compute; discriminate).
  assert (H5 : base_get "src/a.js" [("src/a.js", "old")] <> Some (content (mkFile "src/a.js" "new")))
    by (vm_compute; discriminate).
  split; [exact H0|]. split; [exact H1|]. split; [exact H2|]. split; [exact H3|].
  split; [exact H4|]. split; [exact H5|].
  destruct overlay_delta_spec as [_ [_ [_ H]]].
  exact (H _ _ _ _ _ H0 H1 H2 H3 H4 H5).
Defined.

(** C2: a new file with a binary image extension is kept by
    [_compute_delta_files], but on the [/overlay] endpoint it makes the
    candidate loop raise (the [warnings.append] before [warnings] is
    bound), so the request fails with HTTP 500 and returns no delta at
    all, not even the other new files; any item whose accepted path has a
    binary extension does this, whatever the base. *)
Theorem overlay_endpoint_raises_on_binary_file :
  _compute_delta_files [mkFile "src/App.js" "new"; mkFile "public/logo.png" "x"] []
    = [mkFile "src/App.js" "new"; mkFile "public/logo.png" "x"]
  /\ generate_overlay_delta [mkFile "src/App.js" "new"; mkFile "public/logo.png" "x"] [] = None
  /\ (forall (items : list file) (base : base_map) (it : file),
        In it items -> binary_item it = true -> generate_overlay_delta items base = None).
Proof.
  split; [vm_compute; reflexivity | split; [vm_compute; reflexivity |]].
  intros items base it Hin Hb. unfold generate_overlay_delta.
  replace (overlay_candidates items) with (@None (list file)); [reflexivity |].
  symmetry. apply overlay_candidates_none, Exists_exists. exists it. split; assumption.
Qed.

End OverlayFacts.

(* ------------------------------------------------------------------ *)
(** ** Sanitize and dedupe of [generate_project] *)

Module DedupeFacts.
Import Paths Files.

(** C6: the sanitize loop of [generate_project] keeps a traversal path
    as it is (and turns an absolute path into a relative one), while
    [_safe_normalize], used by the [/overlay] endpoint, rejects both. *)
Theorem generate_project_keeps_traversal_path :
  sanitize_and_dedupe [mkFile "../evil.js" "x"; mkFile "src/App.js" "y"]
    = [mkFile "../evil.js" "x"; mkFile "src/App.js" "y"]
  /\ sanitize_and_dedupe [mkFile "/etc/passwd" "z"] = [mkFile "etc/passwd" "z"]
  /\ _safe_normalize "../evil.js" = None
  /\ _safe_normalize "/etc/passwd" = None.
Proof. vm_compute. repeat split. Qed.

(** C8: for two emissions of the path ["/"], whose cleaned form is the
    empty string, the replacement loop never matches (it re-normalizes the
    kept entry to ["."]) and the first content stays. *)
Theorem dedupe_root_path_keeps_first :
  sanitize_and_dedupe [mkFile "/" "first"; mkFile "/" "last"] = [mkFile "" "first"].
Proof. vm_compute. reflexivity. Qed.

End DedupeFacts.

(* ------------------------------------------------------------------ *)
(** ** Dependency resolver *)

Module ResolverFacts.
Import Resolver.

Definition env_status (code : Z) : reg_env := mkRegEnv (fun _ => RespStatus code) (fun _ => []) 0.

(** C1: a registry answer other than 200 and 404 (here 500) produces no
    entry for the requested name, on the registry path and on the npm
    path after a failed [npm install]. *)
Theorem resolve_and_pin_drops_name_on_http_500 :
  rp_resolved (resolve_and_pin (env_status 500) [] false (NpmErr "") [("react", "")] "js") = []
  /\ rp_warnings (resolve_and_pin (env_status 500) [] false (NpmErr "") [("react", "")] "js")
     = ["npm registry returned 500 for react"]
  /\ rp_resolved (resolve_and_pin (env_status 500) [] true (NpmErr "npm exited 1") [("react", "")] "js") = [].
Proof. vm_compute. repeat split. Qed.

(** Sources reported by the resolver. *)
Definition known_source (d : resolved) : Prop :=
  d_source d = None \/ d_source d = Some "npm" \/ d_source d = Some "npm-cache".

Lemma resolve_name_sources (env : reg_env) (name : string) (st : rstate) :
  Forall known_source (rs_resolved st) -> Forall known_source (rs_resolved (resolve_name env name st)).
Proof.
  intros H. unfold resolve_name.
  assert (Hadd : forall r st', Forall known_source (rs_resolved st') -> known_source r ->
                   Forall known_source (rs_resolved (add_resolved r st'))).
  { intros r st' H1 H2. simpl. apply Forall_app. split; [exact H1|]. constructor; [exact H2|constructor]. }
  destruct (match Dict.get okey_eqb (Some name) (rs_cache st) with
            | Some entry => if Z.ltb (now env - ce_ts entry) NPM_CACHE_TTL then Some entry else None
            | None => None end) as [entry|].
  - apply Hadd; [exact H|]. right; right; reflexivity.
  - destruct (registry_get env (NPM_REGISTRY ++ "/" ++ quote name)) as [latest version versions|code|e].
    + destruct (truthy _).
      * simpl. apply Forall_app. split; [exact H|]. constructor; [|constructor]. right; left; reflexivity.
      * simpl. apply Forall_app. split; [exact H|]. constructor; [|constructor]. left; reflexivity.
    + destruct (Z.eq_dec code 404) as [->|Hne].
      * simpl. destruct (search_registry env name) as [|top rest]; simpl;
          (apply Forall_app; split; [exact H|]; constructor; [left; reflexivity|constructor]).
      * destruct code as [|p|p]; try (simpl; exact H).
        repeat (destruct p as [p|p|]; try (simpl; exact H)); exfalso; apply Hne; reflexivity.
    + simpl. apply Forall_app. split; [exact H|]. constructor; [left; reflexivity|constructor].
Qed.

Lemma resolve_names_sources (env : reg_env) (names : list string) :
  forall st, Forall known_source (rs_resolved st) -> Forall known_source (rs_resolved (resolve_names env names st)).
Proof.
  induction names as [|n r IH]; intros st H; simpl; [exact H|].
  apply IH. apply resolve_name_sources. exact H.
Qed.

Lemma resolve_and_pin_sources (env : reg_env) cache (npm_available : bool) (npm : npm_outcome)
    (deps : deps_t) (language : string) :
  Forall known_source (rp_resolved (resolve_and_pin env cache npm_available npm deps language)).
Proof.
  unfold resolve_and_pin. destruct deps as [|d ds]; [constructor|].
  destruct (andb _ _).
  - destruct (_resolve_with_npm npm (d :: ds)) as [npm_pinned npm_warnings].
    assert (Hc : Forall known_source
      (map (fun '(n, v) => mkResolved n (Some v) (Some "npm")
              (Some (NPM_REGISTRY ++ "/" ++ quote n)) (98 # 100) None) npm_pinned)).
    { apply Forall_forall. intros x Hx. apply in_map_iff in Hx. destruct Hx as [[n v] [<- _]].
      right; left; reflexivity. }
    destruct (filter _ _) as [|m ms].
    + exact Hc.
    + cbn [rp_resolved]. apply Forall_app. split; [exact Hc|].
      unfold _resolve_with_registry. cbn [rp_resolved]. apply resolve_names_sources. constructor.
  - unfold _resolve_with_registry. cbn [rp_resolved]. apply resolve_names_sources. constructor.
Qed.

(** C3 (as the code has it): [resolve_and_pin] consults no curated table
    and never reports the source ["curated"]; for [{react: ""}] with npm
    unavailable and a fresh cache entry [react -> 18.2.0] it yields one
    [npm-cache] entry of confidence 0.95 without a network call.  Only the
    legacy [chain._pin_dep_version] reads a curated table: an entry
    [react -> 18.2.0] there gives [("react", "18.2.0")] without a network
    call, recorded with origin ["curated_or_registry"]. *)
Theorem resolver_has_no_curated_source :
  (forall (env : reg_env) cache (npm_available : bool) (npm : npm_outcome) (deps : deps_t) (language : string)
          (d : resolved),
      In d (rp_resolved (resolve_and_pin env cache npm_available npm deps language)) ->
      d_source d <> Some "curated")
  /\ (let r := resolve_and_pin (mkRegEnv (fun _ => RespRaise "unused") (fun _ => []) 1000)
                 [(Some "react", mkEntry (Some "18.2.0") 900)] false (NpmErr "") [("react", "")] "js" in
      rp_resolved r = [mkResolved "react" (Some "18.2.0") (Some "npm-cache")
                                  (Some "https://registry.npmjs.org/react") (95 # 100) None]
      /\ rp_net r = [])
  /\ (forall (curated : curated_map) (env : reg_env) cache (requested : option string),
      curated_lookup "react" curated = Some "18.2.0" ->
      _pin_dep_version curated env cache "react" requested = (("react", "18.2.0"), [])
      /\ chain_entry (fst (_pin_dep_version curated env cache "react" requested))
         = mkChainResolved "react" "18.2.0" "curated_or_registry").
Proof.
  split; [|split].
  - intros env cache npm_available npm deps language d Hd.
    pose proof (resolve_and_pin_sources env cache npm_available npm deps language) as H.
    rewrite Forall_forall in H. destruct (H d Hd) as [E|[E|E]]; rewrite E; discriminate.
  - vm_compute. split; reflexivity.
  - intros curated env cache requested Hc. unfold _pin_dep_version. rewrite Hc. split; reflexivity.
Qed.

Lemma resolver_has_no_curated_source_witness :
  curated_lookup "react" [("nextjs", ([("react", "18.2.0")], []))] = Some "18.2.0"
  /\ _pin_dep_version [("nextjs", ([("react", "18.2.0")], []))] (env_status 500) [] "react" (Some "")
     = (("react", "18.2.0"), []).
Proof.
  assert (Hc : curated_lookup "react" [("nextjs", ([("react", "18.2.0")], []))] = Some "18.2.0")
    by reflexivity.
  split; [exact Hc|].
  destruct resolver_has_no_curated_source as [_ [_ H]].
  exact (proj1 (H _ (env_status 500) [] (Some "") Hc)).
Defined.

(** C3 counterexample: with a cold cache and npm unavailable, the request
    [{react: ""}] is answered by a registry request, with source ["npm"]
    and confidence 0.98, not by a curated entry. *)
Lemma resolve_and_pin_react_cold_cache :
  let r := resolve_and_pin (mkRegEnv (fun _ => Resp200 (Some "18.2.0") None []) (fun _ => []) 1000)
             [] false (NpmErr "") [("react", "")] "js" in
  rp_resolved r = [mkResolved "react" (Some "18.2.0") (Some "npm")
                              (Some "https://registry.npmjs.org/react") (98 # 100) None]
  /\ rp_net r = [GetPackage "https://registry.npmjs.org/react"].
Proof. vm_compute. split; reflexivity. Qed.

End ResolverFacts.

(* ------------------------------------------------------------------ *)
(** ** Validators and bounded repair *)

Module ValidatorFacts.
Import Paths Files Validator.

Lemma run_tsc_check_absent (env : tool_env) (d : dir) :
  which env "npx" = false -> which env "tsc" = false ->
  run_tsc_check env d = mkCheck false true "tsc not found; skipping TypeScript validation".
Proof. intros H1 H2. unfold run_tsc_check. rewrite H1, H2. reflexivity. Qed.

Lemma run_pytests_absent (env : tool_env) (d : dir) :
  which env "pytest" = false -> run_pytests env d = mkCheck false true "pytest not found; skipping Python tests".
Proof. intros H. unfold run_pytests. rewrite H. reflexivity. Qed.

Lemma run_go_vet_absent (env : tool_env) (d : dir) :
  which env "go" = false -> run_go_vet env d = mkCheck false true "go not found; skipping go vet".
Proof. intros H. unfold run_go_vet. rewrite H. reflexivity. Qed.

Definition configured (opts : val_options) : bool :=
  orb (validate_tsc opts) (orb (validate_pytest opts) (validate_go opts)).

Definition passed_or_skipped (e : string * check_result) : bool :=
  orb (cr_ok (snd e)) (cr_skipped (snd e)).

(** C5 (as the code has it): the details hold exactly the configured
    checks; a check whose tool is not found is reported skipped with
    [ok = False]; [ok] is the AND over the configured checks that were not
    skipped ([True] when every configured check was skipped), and [ok] is
    [None] exactly when no check is configured ([checked = False]). *)
Theorem run_validations_spec (env : tool_env) (d : dir) (opts : val_options) :
  let r := run_validations env d opts in
  v_details r = ((if validate_tsc opts then [("tsc", run_tsc_check env d)] else [])
                 ++ (if validate_pytest opts then [("pytest", run_pytests env d)] else [])
                 ++ (if validate_go opts then [("go_vet", run_go_vet env d)] else []))%list
  /\ v_checked r = configured opts
  /\ v_skipped r = negb (configured opts)
  /\ v_ok r = (if configured opts then Some (forallb passed_or_skipped (v_details r)) else None)
  /\ (which env "npx" = false -> which env "tsc" = false ->
      cr_skipped (run_tsc_check env d) = true /\ cr_ok (run_tsc_check env d) = false)
  /\ (which env "pytest" = false ->
      cr_skipped (run_pytests env d) = true /\ cr_ok (run_pytests env d) = false)
  /\ (which env "go" = false ->
      cr_skipped (run_go_vet env d) = true /\ cr_ok (run_go_vet env d) = false).
Proof.
  cbv zeta.
  split; [|split; [|split; [|split; [|split; [|split]]]]].
  5: { intros H1 H2. rewrite (run_tsc_check_absent env d H1 H2). split; reflexivity. }
  5: { intros H. rewrite (run_pytests_absent env d H). split; reflexivity. }
  5: { intros H. rewrite (run_go_vet_absent env d H). split; reflexivity. }
  all: unfold run_validations, step_check, configured;
       destruct opts as [a b c]; simpl;
       destruct (run_tsc_check env d) as [o1 s1 u1];
       destruct (run_pytests env d) as [o2 s2 u2];
       destruct (run_go_vet env d) as [o3 s3 u3];
       destruct a, b, c; simpl; try reflexivity;
       destruct o1, s1, o2, s2, o3, s3; reflexivity.
Qed.

(** C5 counterexample: with [validate_tsc] set and no [npx]/[tsc] on the
    PATH, no check runs, yet [ok] is [True], not [None]. *)
Lemma run_validations_all_skipped_ok_true :
  let r := run_validations (mkToolEnv (fun _ => false) (fun _ _ => (1%Z, ""))) []
                           (mkValOptions true false false) in
  map (fun e => cr_skipped (snd e)) (v_details r) = [true]
  /\ v_ok r = Some true.
Proof. vm_compute. split; reflexivity. Qed.

(** A TypeScript toolchain is present and every command it runs fails. *)
Definition tsc_always_fails (env : tool_env) : Prop :=
  (which env "npx" = true \/ which env "tsc" = true)
  /\ forall d c, fst (run_cmd env d c) <> 0%Z.

Lemma run_tsc_check_fails (env : tool_env) (d : dir) :
  tsc_always_fails env -> cr_ok (run_tsc_check env d) = false /\ cr_skipped (run_tsc_check env d) = false.
Proof.
  intros [Hw Hc]. unfold run_tsc_check.
  destruct (which env "npx") eqn:E1.
  - simpl. specialize (Hc d ["npx"; "tsc"; "--noEmit"]).
    destruct (run_cmd env d _) as [code out]. simpl in *.
    split; [apply Z.eqb_neq; exact Hc | reflexivity].
  - destruct Hw as [Hw | Hw]; [discriminate |]. rewrite Hw. simpl.
    specialize (Hc d ["tsc"; "--noEmit"]).
    destruct (run_cmd env d _) as [code out]. simpl in *.
    split; [apply Z.eqb_neq; exact Hc | reflexivity].
Qed.

Lemma run_validations_tsc_fails (env : tool_env) (d : dir) :
  tsc_always_fails env ->
  v_checked (run_validations env d (mkValOptions true false false)) = true
  /\ v_ok (run_validations env d (mkValOptions true false false)) = Some false.
Proof.
  intros H. destruct (run_tsc_check_fails env d H) as [Ho Hs].
  unfold run_validations, step_check. simpl.
  destruct (run_tsc_check env d) as [o s u]. simpl in *. subst. split; reflexivity.
Qed.

Lemma attempt_repair_budget_one (llm : nat -> llm_reply) (fs : fs_env) (d : dir) :
  snd (attempt_repair llm fs d 1) = 1
  /\ r_attempts (fst (fst (attempt_repair llm fs d 1))) = 1.
Proof.
  unfold attempt_repair. simpl.
  destruct (llm 1) as [e | out]; [split; reflexivity |].
  destruct (filter _ out) as [| f r]; [split; reflexivity |].
  destruct (apply_candidates _ _ _) as [d' a]. split; reflexivity.
Qed.

Lemma write_files_total (fs : fs_env) :
  (forall d f, fs_write fs d f <> None) ->
  forall l d, exists d', write_files fs l d = Some d'.
Proof.
  intros Hw l. induction l as [| f r IH]; intros d; simpl; [eauto |].
  destruct (fs_write fs d f) as [d1 |] eqn:E; [apply IH | exfalso; exact (Hw d f E)].
Qed.

Lemma write_files_fails (fs : fs_env) (f : file) :
  (forall d, fs_write fs d f = None) ->
  forall l d, In f l -> write_files fs l d = None.
Proof.
  intros Hf l. induction l as [| g r IH]; intros d Hin; [contradiction |].
  simpl. destruct Hin as [-> | Hin]; [rewrite Hf; reflexivity |].
  destruct (fs_write fs d g); [apply IH; exact Hin | reflexivity].
Qed.

Lemma merge_one_in (rp : string) (nf : file) (l l' : list file) :
  merge_one rp nf l = (l', true) -> In nf l'.
Proof.
  revert l'. induction l as [| ex r IH]; simpl; intros l' H; [discriminate |].
  destruct (String.eqb (clean_path (path ex)) rp).
  - injection H as <-. left. reflexivity.
  - destruct (merge_one rp nf r) as [r' b]. injection H as <- ->. right. apply IH. reflexivity.
Qed.

Lemma merge_repaired_single_in (rf : file) (l : list file) :
  In (mkFile (clean_path (path rf)) (content rf)) (merge_repaired [rf] l).
Proof.
  simpl. destruct (merge_one _ _ l) as [l' b] eqn:E. destruct b.
  - exact (merge_one_in _ _ _ _ E).
  - apply in_or_app. right. left. reflexivity.
Qed.

(** With a TypeScript validator that fails on every run, whatever the
    repair model returns (an exception, no files, or any files) and as
    long as every write to the scratch directory succeeds, the validation
    step of [generate_project] makes exactly one repair generation call,
    the repair report records one attempt, and the final validation
    report has [ok = False]. *)
Theorem validation_stage_one_repair_then_fails (env : tool_env) (llm : nat -> llm_reply)
    (fs : fs_env) (files : list file) :
  tsc_always_fails env ->
  (forall d f, fs_write fs d f <> None) ->
  match validation_stage env llm fs true files with
  | StageDone _ rep calls =>
      calls = 1 /\ g_checked rep = true /\ g_ok rep = Some false
      /\ exists rr, g_repair rep = Some rr /\ r_attempts rr = 1
  | StageRaise _ => False
  end.
Proof.
  intros H Hw. unfold validation_stage. simpl negb. cbv iota.
  destruct (write_files_total fs Hw files []) as [d0 E0]. rewrite E0.
  destruct (run_validations_tsc_fails env d0 H) as [Hc Ho].
  cbv zeta. rewrite Hc, Ho. simpl andb. cbv iota.
  destruct (attempt_repair_budget_one llm fs d0) as [Hn Ha].
  destruct (attempt_repair llm fs d0 1) as [[rr d1] calls].
  simpl in Hn, Ha.
  destruct (write_files_total fs Hw (merge_repaired (r_repaired_files rr) files) d1) as [d2 E2].
  rewrite E2.
  destruct (run_validations_tsc_fails env d2 H) as [Hc' Ho'].
  rewrite Hc', Ho'.
  repeat split; try assumption. exists rr. split; [reflexivity | exact Ha].
Qed.

(** Witness of [validation_stage_one_repair_then_fails]: [npx] is present,
    every command exits with status 2, every write succeeds, the model
    returns one file. *)
Lemma validation_stage_one_repair_then_fails_witness :
  let env := mkToolEnv (fun s => String.eqb s "npx") (fun _ _ => (2%Z, "error TS2304")) in
  let fs := mkFsEnv (fun d f => Some (Dict.set String.eqb (path f) (content f) d)) in
  let llm := fun _ : nat => LlmReturn [mkFile "src/a.ts" "export const a = 1;"] in
  tsc_always_fails env
  /\ (forall d f, fs_write fs d f <> None)
  /\ match validation_stage env llm fs true [mkFile "src/a.ts" "export const a = b;"] with
     | StageDone _ rep calls =>
         calls = 1 /\ g_checked rep = true /\ g_ok rep = Some false
         /\ exists rr, g_repair rep = Some rr /\ r_attempts rr = 1
     | StageRaise _ => False
     end.
Proof.
  cbv zeta.
  assert (H : tsc_always_fails (mkToolEnv (fun s => String.eqb s "npx") (fun _ _ => (2%Z, "error TS2304")))).
  { split; [left; reflexivity | intros d c; simpl; discriminate]. }
  assert (Hw : forall d f, fs_write (mkFsEnv (fun d f => Some (Dict.set String.eqb (path f) (content f) d))) d f <> None).
  { intros d f. simpl. discriminate. }
  split; [exact H | split; [exact Hw |]].
  exact (validation_stage_one_repair_then_fails _
           (fun _ : nat => LlmReturn [mkFile "src/a.ts" "export const a = 1;"])
           _ [mkFile "src/a.ts" "export const a = b;"] H Hw).
Defined.

(** C7: with repair budget 1 and a TypeScript validator that fails on
    every run, a repair reply holding the file ["/"] makes the validation
    step raise instead of reporting [ok = False]: [attempt_repair] skips
    its failing write, the merge adds it under the cleaned path [""], and
    the unguarded re-write loop then writes to [Path(tmpdir) / ""], the
    scratch directory itself, which raises.  No validation report is
    produced; the repair call has been made unless the first write loop
    already raised. *)
Theorem validation_stage_root_repair_raises (env : tool_env) (fs : fs_env) (files : list file) :
  tsc_always_fails env ->
  (forall d, fs_write fs d (mkFile "" "x") = None) ->
  validation_stage env (fun _ => LlmReturn [mkFile "/" "x"]) fs true files
  = StageRaise (match write_files fs files [] with Some _ => 1 | None => 0 end).
Proof.
  intros H Hf. unfold validation_stage. simpl negb. cbv iota.
  destruct (write_files fs files []) as [d0 |] eqn:E0; [| reflexivity].
  destruct (run_validations_tsc_fails env d0 H) as [Hc Ho].
  cbv zeta. rewrite Hc, Ho. simpl andb. cbv iota.
  unfold attempt_repair at 1. change (Z.to_nat 1) with (S O). cbv iota beta.
  change (filter _ [mkFile "/" "x"]) with [mkFile "/" "x"]. cbv iota.
  destruct (apply_candidates fs [mkFile "/" "x"] d0) as [d1 applied].
  simpl r_repaired_files.
  assert (Hin : In (mkFile "" "x") (merge_repaired [mkFile "/" "x"] files)).
  { change (mkFile "" "x") with (mkFile (clean_path (path (mkFile "/" "x"))) (content (mkFile "/" "x"))) at 1.
    apply merge_repaired_single_in. }
  rewrite (write_files_fails fs (mkFile "" "x") Hf _ d1 Hin). reflexivity.
Qed.

(** Witness of [validation_stage_root_repair_raises]: [npx] is present and
    every command exits with status 2; a write succeeds unless the path
    names a directory ([""] or ["/"]). *)
Lemma validation_stage_root_repair_raises_witness :
  let env := mkToolEnv (fun s => String.eqb s "npx") (fun _ _ => (2%Z, "error TS2304")) in
  let fs := mkFsEnv (fun d f => if orb (String.eqb (path f) "") (String.eqb (path f) "/") then None
                                else Some (Dict.set String.eqb (path f) (content f) d)) in
  tsc_always_fails env
  /\ (forall d, fs_write fs d (mkFile "" "x") = None)
  /\ validation_stage env (fun _ => LlmReturn [mkFile "/" "x"]) fs true [mkFile "src/a.ts" "export const a = b;"]
     = StageRaise (match write_files fs [mkFile "src/a.ts" "export const a = b;"] [] with Some _ => 1 | None => 0 end)
  /\ write_files fs [mkFile "src/a.ts" "export const a = b;"] [] <> None.
Proof.
  cbv zeta.
  assert (H : tsc_always_fails (mkToolEnv (fun s => String.eqb s "npx") (fun _ _ => (2%Z, "error TS2304")))).
  { split; [left; reflexivity | intros d c; simpl; discriminate]. }
  assert (Hf : forall d, fs_write (mkFsEnv (fun d f => if orb (String.eqb (path f) "") (String.eqb (path f) "/") then None
                                else Some (Dict.set String.eqb (path f) (content f) d))) d (mkFile "" "x") = None).
  { intros d. reflexivity. }
  split; [exact H | split; [exact Hf | split]].
  - exact (validation_stage_root_repair_raises _ _ [mkFile "src/a.ts" "export const a = b;"] H Hf).
  - vm_compute. discriminate.
Defined.

End ValidatorFacts.

(* ------------------------------------------------------------------ *)
(** ** Streaming emission *)

Module StreamFacts.
Import PosixPath Files Followup Stream.

Lemma stream_files_list_eq (sz : nat) (files : list file) :
  _stream_files_list sz files
  = (concat (map (file_events sz) files), map (fun f => mkFile (normpath (path f)) (content f)) files).
Proof.
  induction files as [| f rest IH]; [reflexivity |].
  simpl. rewrite IH. reflexivity.
Qed.

Lemma app_mid {T : Type} (l a b c : list T) (x : T) :
  (l ++ a ++ b ++ c ++ [x] = l ++ (a ++ b ++ c) ++ [x])%list.
Proof. rewrite !app_assoc. reflexivity. Qed.

(** [k * sz < n] exactly when [k] is below the ceiling of [n / sz]. *)
Lemma lt_ceil_div (n sz k : nat) : 0 < sz ->
  (k * sz < n <-> k < (n + sz - 1) / sz).
Proof.
  intros Hsz.
  pose proof (Nat.div_mod (n + sz - 1) sz ltac:(lia)) as Hd.
  pose proof (Nat.mod_upper_bound (n + sz - 1) sz ltac:(lia)) as Hm.
  set (q := (n + sz - 1) / sz) in *. set (r := (n + sz - 1) mod sz) in *.
  clearbody q r.
  split; intros H.
  - destruct (Nat.lt_ge_cases k q) as [Hl | Hl]; [exact Hl |].
    pose proof (Nat.mul_le_mono_r q k sz Hl). lia.
  - assert (S k * sz <= q * sz) by (apply Nat.mul_le_mono_r; lia).
    simpl in *. lia.
Qed.

Lemma chunk_events_length (p c : string) (sz : nat) : 0 < sz ->
  forall fuel k, (String.length c + sz - 1) / sz - k <= fuel ->
  length (chunk_events p c sz (k * sz) fuel) = (String.length c + sz - 1) / sz - k.
Proof.
  intros Hsz fuel. induction fuel as [| f IH]; intros k Hf.
  - simpl. lia.
  - simpl. destruct (Nat.ltb (k * sz) (String.length c)) eqn:E.
    + apply Nat.ltb_lt in E. apply (lt_ceil_div _ _ _ Hsz) in E.
      simpl. replace (k * sz + sz) with (S k * sz) by lia.
      rewrite (IH (S k)) by lia. lia.
    + apply Nat.ltb_ge in E.
      assert (~ k < (String.length c + sz - 1) / sz) as Hn.
      { rewrite <- (lt_ceil_div _ _ _ Hsz). lia. }
      simpl. lia.
Qed.

Lemma chunk_count (p c : string) (sz : nat) : 0 < sz ->
  length (chunk_events p c sz 0 (String.length c)) = (String.length c + sz - 1) / sz.
Proof.
  intros Hsz.
  pose proof (chunk_events_length p c sz Hsz (String.length c) 0) as H.
  simpl in H. rewrite Nat.sub_0_r in H. apply H.
  destruct (String.length c) as [| n] eqn:E.
  - rewrite Nat.add_0_l. rewrite Nat.div_small; lia.
  - apply Nat.lt_succ_r, Nat.Div0.div_lt_upper_bound.
    assert (sz * S (S n) = sz * n + sz + sz) by (rewrite !Nat.mul_succ_r; lia).
    assert (n <= sz * n) by (rewrite <- (Nat.mul_1_l n) at 1; apply Nat.mul_le_mono_r; lia).
    lia.
Qed.

Lemma chunk_events_no_done (p c : string) (sz n : nat) :
  forall fuel i, ~ In (EvDone n) (chunk_events p c sz i fuel).
Proof.
  intros fuel. induction fuel as [| f IH]; intros i; simpl; [tauto |].
  destruct (Nat.ltb i (String.length c)); simpl; [| tauto].
  intros [H | H]; [discriminate | exact (IH _ H)].
Qed.

Lemma file_events_no_done (sz n : nat) (files : list file) :
  ~ In (EvDone n) (concat (map (file_events sz) files)).
Proof.
  induction files as [| f rest IH]; cbn [map concat]; [tauto |].
  intros H. apply in_app_or in H as [H | H]; [| exact (IH H)].
  unfold file_events in H. destruct H as [H | H]; [discriminate |].
  apply in_app_or in H as [H | [H | []]]; [exact (chunk_events_no_done _ _ _ _ _ _ H) | discriminate].
Qed.

(** Once no followups are returned and the generation call returns, the
    stream starts with the events of every emitted file in order, repeats
    included: [file_start], one [file_chunk] per [STREAM_CHUNK_SZ] slice of
    the content (none for empty content), [file_complete]; every emission
    is appended to [accumulated_files].  The generator raises exactly when
    the reply's [metadata] is [None]; otherwise the last event is [done]
    with [files_count] the number of emissions. *)
Theorem stream_emits_every_file (sz : nat) (Hsz : 0 < sz) (request_questions : bool)
    (gate : list followup) (base_files : option base_map) (reply : gen_reply)
    (post : list file -> list event) :
  (if request_questions then gate else []) = [] ->
  let files := emitted_files base_files reply in
  let '(evs, raised) := stream_generate_project sz request_questions gate base_files (GenReturn reply) post in
  (exists middle,
     evs = (concat (map (file_events sz) files) ++ middle
            ++ (if raised then [] else [EvDone (length files)]))%list)
  /\ (raised = true <-> g_metadata reply = None)
  /\ snd (_stream_files_list sz files) = map (fun f => mkFile (normpath (path f)) (content f)) files
  /\ (forall f, In f files ->
        file_events sz f
        = EvFileStart (normpath (path f))
            :: (chunk_events (normpath (path f)) (content f) sz 0 (String.length (content f))
                ++ [EvFileComplete (normpath (path f)) (String.length (content f))])%list
        /\ length (chunk_events (normpath (path f)) (content f) sz 0 (String.length (content f)))
           = (String.length (content f) + sz - 1) / sz).
Proof.
  intros Hq files.
  unfold stream_generate_project. rewrite Hq. fold files.
  assert (Hrest : snd (_stream_files_list sz files) = map (fun f => mkFile (normpath (path f)) (content f)) files
        /\ (forall f, In f files ->
        file_events sz f
        = EvFileStart (normpath (path f))
            :: (chunk_events (normpath (path f)) (content f) sz 0 (String.length (content f))
                ++ [EvFileComplete (normpath (path f)) (String.length (content f))])%list
        /\ length (chunk_events (normpath (path f)) (content f) sz 0 (String.length (content f)))
           = (String.length (content f) + sz - 1) / sz)).
  { split; [rewrite stream_files_list_eq; reflexivity |].
    intros f _. split; [reflexivity | apply chunk_count; exact Hsz]. }
  rewrite stream_files_list_eq in Hrest |- *.
  destruct (match base_files with
            | Some (_ :: _) => _ | _ => Some [] end) as [nd |] eqn:End.
  - destruct (g_metadata reply) as [m |] eqn:Em.
    + split; [| split; [split; [discriminate | discriminate] | exact Hrest]].
      rewrite length_map. eexists. rewrite app_mid. reflexivity.
    + split; [| split; [tauto | exact Hrest]].
      exists (match nd with [] => [] | _ => [EvOther "new_dependencies"] end).
      rewrite app_nil_r. reflexivity.
  - split; [| split; [| exact Hrest]].
    + exists []. rewrite !app_nil_r. reflexivity.
    + split; [intros _ | reflexivity].
      destruct base_files as [[| e m] |]; try discriminate.
      destruct (g_new_dependencies reply); [| discriminate].
      destruct (g_metadata reply); [discriminate | reflexivity].
Qed.

(** Witness of [stream_emits_every_file]: the same path emitted twice. *)
Lemma stream_emits_every_file_witness :
  0 < 4 /\
  (let reply := mkGenReply [mkFile "a.js" "abcdef"; mkFile "./a.js" "xy"] [] (Some (mkGenMetadata [] [])) in
   let files := emitted_files None reply in
   let '(evs, raised) := stream_generate_project 4 false [] None (GenReturn reply) (fun _ => []) in
   (exists middle,
      evs = (concat (map (file_events 4) files) ++ middle
             ++ (if raised then [] else [EvDone (length files)]))%list)
   /\ (raised = true <-> g_metadata reply = None)
   /\ snd (_stream_files_list 4 files) = map (fun f => mkFile (normpath (path f)) (content f)) files
   /\ (forall f, In f files ->
         file_events 4 f
         = EvFileStart (normpath (path f))
             :: (chunk_events (normpath (path f)) (content f) 4 0 (String.length (content f))
                 ++ [EvFileComplete (normpath (path f)) (String.length (content f))])%list
         /\ length (chunk_events (normpath (path f)) (content f) 4 0 (String.length (content f)))
            = (String.length (content f) + 4 - 1) / 4)).
Proof.
  assert (H : 0 < 4) by lia.
  split; [exact H |].
  exact (stream_emits_every_file 4 H false [] None
           (mkGenReply [mkFile "a.js" "abcdef"; mkFile "./a.js" "xy"] [] (Some (mkGenMetadata [] [])))
           (fun _ => []) eq_refl).
Defined.

(** C10: a generation reply whose [metadata] is null still streams its
    files, but then [parsed.get("metadata", {}).get("warnings")] raises,
    so the stream ends without a [done] event (and without the dependency
    and validation events); this holds for every such reply once no
    followups are returned.  Also, a file with empty content yields
    [file_start] and [file_complete] but no [file_chunk]. *)
Theorem stream_metadata_none_no_done :
  stream_generate_project 1024 false [] None
    (GenReturn (mkGenReply [mkFile "a.js" "x"] [] None)) (fun _ => [])
  = ([EvFileStart "a.js"; EvFileChunk "a.js" "x" 0 true; EvFileComplete "a.js" 1], true)
  /\ (forall (sz : nat) (request_questions : bool) (gate : list followup)
        (base_files : option base_map) (files : list file) (nd : list string)
        (post : list file -> list event) (n : nat),
        (if request_questions then gate else []) = [] ->
        let '(evs, raised) :=
          stream_generate_project sz request_questions gate base_files
            (GenReturn (mkGenReply files nd None)) post in
        raised = true /\ ~ In (EvDone n) evs)
  /\ stream_generate_project 1024 false [] None
       (GenReturn (mkGenReply [mkFile "a.js" ""] [] (Some (mkGenMetadata [] [])))) (fun _ => [])
     = ([EvFileStart "a.js"; EvFileComplete "a.js" 0; EvDone 1], false).
Proof.
  split; [vm_compute; reflexivity | split; [| vm_compute; reflexivity]].
  intros sz rq gate base_files files nd post n Hq.
  unfold stream_generate_project. rewrite Hq. rewrite stream_files_list_eq. cbn [g_metadata g_new_dependencies].
  pose proof (file_events_no_done sz n (emitted_files base_files (mkGenReply files nd None))) as Hn.
  destruct base_files as [[| e m] |].
  - split; [reflexivity |]. rewrite app_nil_r. exact Hn.
  - destruct nd as [| d ds].
    + split; [reflexivity | exact Hn].
    + split; [reflexivity |]. intros H. apply in_app_or in H as [H | [H | []]]; [exact (Hn H) | discriminate].
  - split; [reflexivity |]. rewrite app_nil_r. exact Hn.
Qed.

End StreamFacts.

(* ------------------------------------------------------------------ *)
(** ** Path sanitizers *)

Module PathFacts.
Import Py PyMore PosixPath Paths Files FileHelpers.

Lemma has_char_app (c : ascii) (a b : string) :
  has_char c (a ++ b) = orb (has_char c a) (has_char c b).
Proof. induction a as [| d r IH]; simpl; [reflexivity | rewrite IH, orb_assoc; reflexivity]. Qed.

Lemma has_char_rev (c : ascii) (s : string) : has_char c (rev_str s) = has_char c s.
Proof.
  induction s as [| d r IH]; simpl; [reflexivity |].
  rewrite has_char_app, IH. simpl. rewrite orb_false_r, orb_comm. reflexivity.
Qed.

Lemma split_char_aux_no_char (c d : ascii) (s cur : string) :
  has_char c s = false -> has_char c cur = false ->
  Forall (fun x => has_char c x = false) (split_char_aux d s cur).
Proof.
  revert cur. induction s as [| e r IH]; intros cur Hs Hc; simpl.
  - constructor; [rewrite has_char_rev; exact Hc | constructor].
  - simpl in Hs. apply orb_false_iff in Hs as [He Hr].
    destruct (Ascii.eqb d e).
    + constructor; [rewrite has_char_rev; exact Hc |]. apply IH; auto.
    + apply IH; [exact Hr |]. simpl. rewrite He, Hc. reflexivity.
Qed.

Lemma in_removelast {A : Type} (x : A) (l : list A) : In x (removelast l) -> In x l.
Proof.
  induction l as [| a r IH]; simpl; [tauto |].
  destruct r as [| b r']; simpl; [tauto |].
  intros [H | H]; [left; exact H | right; apply IH; exact H].
Qed.

Lemma norm_comps_forall (P : string -> Prop) (i : nat) (comps acc : list string) :
  Forall P comps -> Forall P acc -> Forall P (norm_comps i comps acc).
Proof.
  revert acc. induction comps as [| x r IH]; intros acc Hc Ha; simpl; [exact Ha |].
  inversion Hc as [| ? ? Hx Hr]; subst.
  destruct (orb (x =? "") (x =? ".")); [apply IH; auto |].
  destruct (orb _ _).
  - apply IH; [exact Hr |]. apply Forall_app; split; [exact Ha | constructor; auto].
  - destruct acc as [| a acc']; apply IH; auto.
    apply Forall_forall. intros y Hy. apply in_removelast in Hy.
    rewrite Forall_forall in Ha. apply Ha, Hy.
Qed.

Lemma join_no_char (c : ascii) (sep : string) (l : list string) :
  has_char c sep = false -> Forall (fun x => has_char c x = false) l -> has_char c (join sep l) = false.
Proof.
  intros Hs. induction l as [| x r IH]; intros Hl; [reflexivity |].
  inversion Hl as [| ? ? Hx Hr]; subst.
  destruct r as [| y r']; [exact Hx |].
  change (has_char c (x ++ sep ++ join sep (y :: r')) = false).
  rewrite !has_char_app, Hx, Hs, (IH Hr). reflexivity.
Qed.

Lemma repeat_str_no_char (c : ascii) (n : nat) (s : string) :
  has_char c s = false -> has_char c (repeat_str n s) = false.
Proof. intros H. induction n as [| k IH]; simpl; [reflexivity | rewrite has_char_app, H, IH; reflexivity]. Qed.

(** [normpath] introduces no character other than ['/'] and ['.']. *)
Lemma normpath_no_char (c : ascii) (p : string) :
  Ascii.eqb c slash = false -> Ascii.eqb c dot = false ->
  has_char c p = false -> has_char c (normpath p) = false.
Proof.
  intros Hsl Hdot Hp. unfold normpath.
  assert (Hd : has_char c "." = false) by (simpl; unfold dot in Hdot; rewrite Hdot; reflexivity).
  destruct p as [| a r]; [exact Hd |].
  match goal with |- context [match ?x with EmptyString => _ | String _ _ => _ end] =>
    assert (Hx : has_char c x = false); [| destruct x; [exact Hd | exact Hx]] end.
  rewrite has_char_app. apply orb_false_iff. split.
  - apply repeat_str_no_char. simpl. unfold slash in Hsl. rewrite Hsl. reflexivity.
  - apply join_no_char; [simpl; unfold slash in Hsl; rewrite Hsl; reflexivity |].
    apply norm_comps_forall; [| constructor].
    apply split_char_aux_no_char; [exact Hp | reflexivity].
Qed.

Lemma replace_char_absent (a b : ascii) (s : string) :
  has_char a s = false -> replace_char a b s = s.
Proof.
  induction s as [| c r IH]; simpl; [reflexivity |].
  intros H. apply orb_false_iff in H as [Hc Hr].
  rewrite Ascii.eqb_sym, Hc, (IH Hr). reflexivity.
Qed.

Lemma replace_char_removes (a b : ascii) (s : string) :
  Ascii.eqb a b = false -> has_char a (replace_char a b s) = false.
Proof.
  intros Hab. induction s as [| c r IH]; simpl; [reflexivity |].
  rewrite IH, orb_false_r.
  destruct (Ascii.eqb c a) eqn:E; [exact Hab |].
  rewrite Ascii.eqb_sym. exact E.
Qed.

Lemma lstrip_chars_suffix (cs : list ascii) (s : string) :
  exists pre, s = pre ++ lstrip_chars cs s.
Proof.
  induction s as [| c r IH]; simpl; [exists ""; reflexivity |].
  destruct (existsb (Ascii.eqb c) cs).
  - destruct IH as [pre Hpre]. exists (String c pre). simpl. rewrite <- Hpre. reflexivity.
  - exists "". reflexivity.
Qed.

Lemma lstrip_chars_head (cs : list ascii) (s : string) :
  match lstrip_chars cs s with
  | String c _ => existsb (Ascii.eqb c) cs = false
  | EmptyString => True
  end.
Proof.
  induction s as [| c r IH]; simpl; [exact I |].
  destruct (existsb (Ascii.eqb c) cs) eqn:E; [exact IH | exact E].
Qed.

Lemma contains_app_r (p pre t : string) : contains p t = true -> contains p (pre ++ t) = true.
Proof.
  intros H. induction pre as [| c r IH]; [exact H |].
  change (contains p (String c (r ++ t)) = true).
  unfold contains; fold contains.
  destruct (String.prefix p (String c (r ++ t))); [reflexivity | exact IH].
Qed.

Lemma no_char_suffix (c : ascii) (pre t : string) :
  has_char c (pre ++ t) = false -> has_char c t = false.
Proof. rewrite has_char_app. intros H. apply orb_false_iff in H. tauto. Qed.

Lemma lstrip_chars_no_char (c : ascii) (cs : list ascii) (s : string) :
  has_char c s = false -> has_char c (lstrip_chars cs s) = false.
Proof.
  destruct (lstrip_chars_suffix cs s) as [pre Hpre]. rewrite Hpre at 1. apply no_char_suffix.
Qed.

Lemma lstrip_chars_not_contains (p : string) (cs : list ascii) (s : string) :
  contains p s = false -> contains p (lstrip_chars cs s) = false.
Proof.
  destruct (lstrip_chars_suffix cs s) as [pre Hpre]. rewrite Hpre at 1.
  intros H. destruct (contains p (lstrip_chars cs s)) eqn:E; [| reflexivity].
  rewrite (contains_app_r p pre _ E) in H. discriminate.
Qed.

Lemma prefix_one (a c : ascii) (r : string) :
  String.prefix (String a EmptyString) (String c r) = Ascii.eqb a c.
Proof.
  unfold String.prefix. destruct (ascii_dec a c) as [<- | Hne].
  - rewrite Ascii.eqb_refl. destruct r; reflexivity.
  - apply Ascii.eqb_neq in Hne. rewrite Hne. reflexivity.
Qed.

(** [_safe_normalize] never returns an absolute path, a path starting
    with ['.'] (so neither ["./x"] nor [".."]), a path containing ["/.."],
    or a path with a backslash. *)
Theorem safe_normalize_result_is_confined (p0 sp : string) :
  _safe_normalize p0 = Some sp ->
  isabs sp = false /\ startswith "." sp = false /\ contains "/.." sp = false
  /\ has_char backslash sp = false.
Proof.
  unfold _safe_normalize.
  destruct (strip p0 =? "") ; [discriminate |].
  destruct (isabs (replace_char backslash slash p0)); [discriminate |].
  set (clean := normpath (replace_char backslash slash p0)).
  assert (Hb : has_char backslash clean = false).
  { apply normpath_no_char; [reflexivity | reflexivity |].
    apply replace_char_removes. reflexivity. }
  rewrite (replace_char_absent _ _ _ Hb).
  destruct (orb (startswith ".." clean) (orb (contains "/.." clean) (clean =? ".."))) eqn:Hc;
    [discriminate |].
  intros H. injection H as <-.
  apply orb_false_iff in Hc as [_ Hc]. apply orb_false_iff in Hc as [Hc _].
  pose proof (lstrip_chars_head [dot; slash] clean) as Hh.
  split; [| split; [| split]].
  - unfold isabs, startswith. destruct (lstrip_chars [dot; slash] clean) as [| c r]; [reflexivity |].
    rewrite prefix_one. simpl in Hh. apply orb_false_iff in Hh as [_ Hh].
    apply orb_false_iff in Hh as [Hh _]. rewrite Ascii.eqb_sym. exact Hh.
  - unfold startswith. destruct (lstrip_chars [dot; slash] clean) as [| c r]; [reflexivity |].
    rewrite prefix_one. simpl in Hh. apply orb_false_iff in Hh as [Hh _].
    rewrite Ascii.eqb_sym. exact Hh.
  - apply lstrip_chars_not_contains. exact Hc.
  - apply lstrip_chars_no_char. exact Hb.
Qed.

Lemma prefix_cons (a c : ascii) (s1 s2 : string) :
  String.prefix (String a s1) (String c s2) = if Ascii.eqb a c then String.prefix s1 s2 else false.
Proof.
  cbn [String.prefix]. destruct (ascii_dec a c) as [<- | Hne].
  - rewrite Ascii.eqb_refl. reflexivity.
  - apply Ascii.eqb_neq in Hne. rewrite Hne. reflexivity.
Qed.

Definition starts_dot (s : string) : bool :=
  match s with String c _ => Ascii.eqb c dot | EmptyString => false end.

Lemma contains_dd_cons (c : ascii) (x : string) :
  contains ".." (String c x) = orb (andb (Ascii.eqb c dot) (starts_dot x)) (contains ".." x).
Proof.
  change (contains ".." (String c x)) with
    (if String.prefix ".." (String c x) then true else contains ".." x).
  rewrite prefix_cons. rewrite (Ascii.eqb_sym "." c). unfold dot.
  destruct (Ascii.eqb c "."); [| reflexivity].
  destruct x as [| d y]; [reflexivity |].
  rewrite prefix_cons. unfold starts_dot. rewrite (Ascii.eqb_sym "." d). unfold dot.
  assert (Hy : String.prefix "" y = true) by (destruct y; reflexivity).
  rewrite Hy. destruct (Ascii.eqb d "."); reflexivity.
Qed.

Lemma substring_full (t : string) (m : nat) : String.length t <= m -> substring 0 m t = t.
Proof.
  revert m. induction t as [| c r IH]; intros m Hm; destruct m as [| m']; simpl in *; try reflexivity; try lia.
  rewrite IH by lia. reflexivity.
Qed.

Lemma replace_dd_head (fuel : nat) (s : string) :
  starts_dot (replace_fuel fuel ".." "" s) = true -> starts_dot s = true.
Proof.
  destruct fuel as [| f]; simpl; [exact (fun H => H) |].
  destruct s as [| c r]; [discriminate |].
  destruct (String.prefix ".." (String c r)) eqn:E.
  - intros _. destruct r as [| d r']; rewrite prefix_cons in E;
      destruct (Ascii.eqb "." c) eqn:Ec; try discriminate;
      simpl; rewrite Ascii.eqb_sym; exact Ec.
  - simpl. exact (fun H => H).
Qed.

Lemma replace_dd_no_dd (fuel : nat) (s : string) :
  String.length s <= fuel -> contains ".." (replace_fuel fuel ".." "" s) = false.
Proof.
  revert s. induction fuel as [| f IH]; intros s Hs.
  - destruct s; [reflexivity | simpl in Hs; lia].
  - destruct s as [| c r]; [reflexivity |]. cbn [replace_fuel].
    destruct (String.prefix ".." (String c r)) eqn:E.
    + destruct r as [| d t]; [rewrite prefix_cons in E; destruct (Ascii.eqb "." c); discriminate |].
      simpl String.length. simpl append.
      change (substring 2 (S (S (String.length t))) (String c (String d t)))
        with (substring 0 (S (S (String.length t))) t).
      rewrite substring_full by lia. apply IH. simpl in Hs. lia.
    + rewrite contains_dd_cons, IH by (simpl in Hs; lia). rewrite orb_false_r.
      destruct (Ascii.eqb c dot) eqn:Ec; [| reflexivity]. simpl.
      destruct (starts_dot (replace_fuel f ".." "" r)) eqn:Eh; [| reflexivity].
      apply replace_dd_head in Eh. destruct r as [| d t]; [discriminate |].
      simpl in Eh. unfold dot in Ec, Eh.
      rewrite prefix_cons, Ascii.eqb_sym, Ec, prefix_cons, Ascii.eqb_sym, Eh in E.
      destruct t; discriminate.
Qed.

(** [validate_file_tree] keeps one entry per input file, in order, with
    the same content; no returned path contains [".."] (removing every
    [".."] left to right cannot create a new one), and a missing or empty
    path comes back as ["unknown.txt"]. *)
Theorem validate_file_tree_no_dotdot (files : list file) :
  map content (validate_file_tree files) = map content files
  /\ Forall (fun f => contains ".." (path f) = false) (validate_file_tree files)
  /\ (forall f, In f files -> path f = "" -> In (mkFile "unknown.txt" (content f)) (validate_file_tree files)).
Proof.
  split; [| split].
  - unfold validate_file_tree. rewrite map_map. reflexivity.
  - unfold validate_file_tree. apply Forall_map, Forall_forall. intros f _. simpl.
    apply replace_dd_no_dd. reflexivity.
  - intros f Hin Hp. unfold validate_file_tree.
    apply in_map_iff. exists f. split; [| exact Hin].
    rewrite Hp. reflexivity.
Qed.

(** The paths of [_compute_delta_files] (the overlay delta of the
    generation path) are relative and use forward slashes only: none
    starts with ['/'] and none contains a backslash. *)
Theorem compute_delta_paths_relative (emitted : list file) (base : base_map) :
  Forall (fun f => isabs (path f) = false /\ has_char backslash (path f) = false)
         (_compute_delta_files emitted base).
Proof.
  induction emitted as [| f rest IH]; simpl; [constructor |].
  assert (Hn : isabs (_normalize_path (path f)) = false
               /\ has_char backslash (_normalize_path (path f)) = false).
  { unfold _normalize_path. split.
    - pose proof (lstrip_chars_head [slash] (replace_char backslash slash (normpath (path f)))) as Hh.
      unfold isabs, startswith.
      destruct (lstrip_chars [slash] _) as [| c r]; [reflexivity |].
      rewrite prefix_one. simpl in Hh. rewrite orb_false_r in Hh.
      rewrite Ascii.eqb_sym. exact Hh.
    - apply lstrip_chars_no_char, replace_char_removes. reflexivity. }
  destruct (String.eqb (basename _) "package.json"); [exact IH |].
  destruct (base_get _ base); [destruct (negb _) |]; try exact IH; constructor; auto.
Qed.

End PathFacts.

(* ------------------------------------------------------------------ *)
(** ** Registry URLs and lockfile pins *)

Module ResolverMoreFacts.
Import Py PyMore Resolver.

Lemma quote_char_cases (c : ascii) :
  (quote_char c = String c EmptyString /\ c <> "%"%char)
  \/ quote_char c = String "%" (String (hex_digit (nat_of_ascii c / 16))
                                  (String (hex_digit (nat_of_ascii c mod 16)) EmptyString)).
Proof.
  unfold quote_char. destruct (orb _ _) eqn:E; [left | right; reflexivity].
  split; [reflexivity |]. intros ->. vm_compute in E. discriminate.
Qed.

Lemma hex_digit_inj (n m : nat) : n < 16 -> m < 16 -> hex_digit n = hex_digit m -> n = m.
Proof.
  intros Hn Hm H. apply (f_equal nat_of_ascii) in H. unfold hex_digit in H.
  destruct (Nat.ltb_spec n 10), (Nat.ltb_spec m 10);
    rewrite !nat_ascii_embedding in H by lia; lia.
Qed.

Lemma quote_char_nonempty (c : ascii) : exists d t, quote_char c = String d t.
Proof. destruct (quote_char_cases c) as [[-> _] | ->]; eauto. Qed.

Lemma quote_inj (s1 s2 : string) : quote s1 = quote s2 -> s1 = s2.
Proof.
  revert s2. induction s1 as [| c r IH]; intros s2 H; destruct s2 as [| d t]; simpl in H.
  - reflexivity.
  - destruct (quote_char_nonempty d) as [x [y E]]. rewrite E in H. discriminate.
  - destruct (quote_char_nonempty c) as [x [y E]]. rewrite E in H. discriminate.
  - destruct (quote_char_cases c) as [[Ec Hc] | Ec]; destruct (quote_char_cases d) as [[Ed Hd] | Ed];
      rewrite Ec, Ed in H; simpl in H; injection H; intros.
    + subst. f_equal. apply IH. assumption.
    + subst. contradiction.
    + subst. contradiction.
    + assert (Hc : nat_of_ascii c < 256) by apply nat_ascii_bounded.
      assert (Hd : nat_of_ascii d < 256) by apply nat_ascii_bounded.
      assert (E1 : nat_of_ascii c / 16 = nat_of_ascii d / 16).
      { apply hex_digit_inj; try assumption; apply Nat.Div0.div_lt_upper_bound; lia. }
      assert (E2 : nat_of_ascii c mod 16 = nat_of_ascii d mod 16).
      { apply hex_digit_inj; try assumption; apply Nat.mod_upper_bound; lia. }
      assert (E3 : nat_of_ascii c = nat_of_ascii d).
      { rewrite (Nat.div_mod (nat_of_ascii c) 16), (Nat.div_mod (nat_of_ascii d) 16) by lia. lia. }
      rewrite <- (ascii_nat_embedding c), <- (ascii_nat_embedding d), E3.
      f_equal. apply IH. assumption.
Qed.

Lemma append_cancel_l (p a b : string) : p ++ a = p ++ b -> a = b.
Proof. induction p as [| c r IH]; simpl; [tauto | intros H; injection H; exact IH]. Qed.

Lemma quote_no_slash (s : string) : has_char "/" (quote s) = false.
Proof.
  induction s as [| c r IH]; [reflexivity |]. simpl.
  rewrite (PathFacts.has_char_app), IH, orb_false_r.
  destruct c as [[] [] [] [] [] [] [] []]; reflexivity.
Qed.

(** The registry URL [f"{NPM_REGISTRY}/{quote(name, safe='')}"] used by
    [_resolve_with_registry] and [resolve_and_pin] determines the package
    name (distinct names are never sent to the same URL), and the encoded
    name contains no ['/'], so a scoped name such as ["@scope/pkg"] stays
    a single path segment. *)
Theorem registry_url_injective (n1 n2 : string) :
  (NPM_REGISTRY ++ "/" ++ quote n1 = NPM_REGISTRY ++ "/" ++ quote n2 <-> n1 = n2)
  /\ has_char "/" (quote n1) = false.
Proof.
  split; [split; [| intros ->; reflexivity] | apply quote_no_slash].
  intros H. apply append_cancel_l, append_cancel_l in H. apply quote_inj. exact H.
Qed.

Lemma dict_set_keys (k : string) {V : Type} (v : V) (d : list (string * V)) (x : string) :
  In x (map fst (Dict.set String.eqb k v d)) <-> x = k \/ In x (map fst d).
Proof.
  induction d as [| [k' v'] r IH]; simpl; [intuition congruence |].
  destruct (String.eqb k k') eqn:E.
  - apply String.eqb_eq in E. subst. simpl. intuition congruence.
  - simpl. rewrite IH. tauto.
Qed.

Lemma dict_set_nodup (k : string) {V : Type} (v : V) (d : list (string * V)) :
  NoDup (map fst d) -> NoDup (map fst (Dict.set String.eqb k v d)).
Proof.
  induction d as [| [k' v'] r IH]; simpl; intros H; [constructor; [tauto | constructor] |].
  inversion H as [| ? ? Hn Hr]; subst.
  destruct (String.eqb k k') eqn:E; simpl; [exact H |].
  constructor; [| exact (IH Hr)].
  rewrite dict_set_keys. intros [-> | Hin]; [rewrite String.eqb_refl in E; discriminate | contradiction].
Qed.

Lemma dict_set_forall (P : string -> string -> Prop) (k v : string) (d : list (string * string)) :
  Forall (fun kv => P (fst kv) (snd kv)) d -> P k v ->
  Forall (fun kv => P (fst kv) (snd kv)) (Dict.set String.eqb k v d).
Proof.
  induction d as [| [k' v'] r IH]; simpl; intros Hd Hk; [constructor; [exact Hk | constructor] |].
  inversion Hd as [| ? ? Hx Hr]; subst.
  destruct (String.eqb k k') eqn:E.
  - apply String.eqb_eq in E. subst. constructor; assumption.
  - constructor; [exact Hx | exact (IH Hr Hk)].
Qed.

Definition pin_ok (names : list string) (k v : string) : Prop := In k names /\ v <> "".

Lemma pin_from_deps_ok (names0 : list string) (deps : list (string * option string))
    (names : list string) (pinned : list (string * string)) :
  incl names names0 -> NoDup (map fst pinned) ->
  Forall (fun kv => pin_ok names0 (fst kv) (snd kv)) pinned ->
  NoDup (map fst (pin_from_deps deps names pinned))
  /\ Forall (fun kv => pin_ok names0 (fst kv) (snd kv)) (pin_from_deps deps names pinned).
Proof.
  revert pinned. induction names as [| n r IH]; intros pinned Hi Hn Hf; simpl; [tauto |].
  assert (Hr : incl r names0) by (intros x Hx; apply Hi; right; exact Hx).
  destruct (Dict.get String.eqb n deps) as [[ver |] |]; [| apply IH; auto | apply IH; auto].
  unfold truthy. destruct (ver =? "") eqn:Et; simpl; [apply IH; auto |].
  apply IH; [exact Hr | apply dict_set_nodup; exact Hn |].
  apply dict_set_forall; [exact Hf |]. split; [apply Hi; left; reflexivity | apply String.eqb_neq; exact Et].
Qed.

Lemma str_in_In (x : string) (l : list string) : str_in x l = true -> In x l.
Proof.
  unfold str_in. intros H. apply existsb_exists in H as [y [Hy Hxy]].
  apply String.eqb_eq in Hxy. subst. exact Hy.
Qed.

Lemma pin_from_packages_ok (packages : list (string * option string)) (names : list string)
    (pinned : list (string * string)) :
  NoDup (map fst pinned) -> Forall (fun kv => pin_ok names (fst kv) (snd kv)) pinned ->
  NoDup (map fst (pin_from_packages packages names pinned))
  /\ Forall (fun kv => pin_ok names (fst kv) (snd kv)) (pin_from_packages packages names pinned).
Proof.
  revert pinned. induction packages as [| [pp meta] r IH]; intros pinned Hn Hf; simpl; [tauto |].
  destruct (startswith "node_modules/" pp); [| apply IH; auto].
  destruct meta as [ver |]; [| apply IH; auto].
  destruct (str_in (drop 13 pp) names) eqn:Ei; simpl; [| apply IH; auto].
  destruct (ver =? "") eqn:Et; simpl; [apply IH; auto |].
  apply IH; [apply dict_set_nodup; exact Hn |].
  apply dict_set_forall; [exact Hf |]. split; [apply str_in_In; exact Ei | apply String.eqb_neq; exact Et].
Qed.

Lemma extract_pinned_ok (lock : lockfile) (requested_names : list string) :
  NoDup (map fst (_extract_pinned_from_lockfile lock requested_names))
  /\ Forall (fun kv => In (fst kv) requested_names /\ snd kv <> "")
            (_extract_pinned_from_lockfile lock requested_names).
Proof.
  unfold _extract_pinned_from_lockfile.
  destruct (pin_from_deps_ok requested_names (lf_dependencies lock) requested_names []
              (incl_refl _) (NoDup_nil _) (Forall_nil _)) as [Hn Hf].
  destruct (Nat.ltb _ _); [| exact (conj Hn Hf)].
  apply pin_from_packages_ok; assumption.
Qed.

(** [_extract_pinned_from_lockfile] pins only requested names, each at
    most once, and never to an empty version, whichever of the
    [dependencies] and [packages] shapes the lockfile has. *)
Theorem extract_pinned_only_requested (lock : lockfile) (requested_names : list string) :
  let pinned := _extract_pinned_from_lockfile lock requested_names in
  NoDup (map fst pinned)
  /\ Forall (fun kv => In (fst kv) requested_names /\ snd kv <> "") pinned.
Proof. exact (extract_pinned_ok lock requested_names). Qed.

End ResolverMoreFacts.

(* ------------------------------------------------------------------ *)
(** ** One entry and at most two requests per requested name *)

Module ResolverCountFacts.
Import Py Resolver.

Ltac close_step :=
  eexists; eexists;
  split; [first [reflexivity | symmetry; apply app_nil_r] |];
  split; [repeat constructor |];
  split; [simpl; lia |];
  split; [try rewrite <- app_assoc; first [reflexivity | symmetry; apply app_nil_r] | simpl; lia].

Lemma resolve_name_step (env : reg_env) (n : string) (st : rstate) :
  exists l m,
    rs_resolved (resolve_name env n st) = (rs_resolved st ++ l)%list
    /\ Forall (fun e => d_name e = n) l /\ length l <= 1
    /\ rs_net (resolve_name env n st) = (rs_net st ++ m)%list /\ length m <= 2.
Proof.
  unfold resolve_name, search. cbv zeta.
  repeat (match goal with |- context [match ?x with _ => _ end] => destruct x end);
  cbn [rs_resolved rs_net add_resolved add_warning set_pinned set_cache add_net];
  close_step.
Qed.

Lemma resolve_names_inv (env : reg_env) (names : list string) (st : rstate) :
  exists l m,
    rs_resolved (resolve_names env names st) = (rs_resolved st ++ l)%list
    /\ Forall (fun e => In (d_name e) names) l
    /\ (NoDup names -> NoDup (map d_name l))
    /\ rs_net (resolve_names env names st) = (rs_net st ++ m)%list
    /\ length m <= 2 * length names.
Proof.
  revert st. induction names as [| n r IH]; intros st; simpl.
  - exists [], []. rewrite !app_nil_r. repeat split; try constructor; simpl; lia.
  - destruct (resolve_name_step env n st) as [l1 [m1 [Hr1 [Hf1 [Hl1 [Hn1 Hm1]]]]]].
    destruct (IH (resolve_name env n st)) as [l2 [m2 [Hr2 [Hf2 [Hd2 [Hn2 Hm2]]]]]].
    exists (l1 ++ l2)%list, (m1 ++ m2)%list.
    rewrite Hr2, Hr1, Hn2, Hn1, !app_assoc. split; [reflexivity |].
    split; [| split; [| split; [reflexivity |]]].
    + apply Forall_app. split.
      * apply Forall_forall. intros e He. rewrite Forall_forall in Hf1. left. symmetry. apply Hf1, He.
      * apply Forall_forall. intros e He. rewrite Forall_forall in Hf2. right. apply Hf2, He.
    + intros Hnd. inversion Hnd as [| ? ? Hnr Hndr]; subst.
      rewrite map_app. apply NoDup_app.
      * destruct l1 as [| e1 [| e2 l1']]; simpl in Hl1 |- *; [constructor | | lia].
        constructor; [tauto | constructor].
      * apply Hd2, Hndr.
      * intros a Ha1 Ha2. apply in_map_iff in Ha1 as [e1 [<- He1]].
        rewrite Forall_forall in Hf1. rewrite (Hf1 e1 He1) in Ha2.
        apply in_map_iff in Ha2 as [e2 [He2 Hin2]]. rewrite Forall_forall in Hf2.
        apply Hnr. rewrite <- He2. apply Hf2, Hin2.
    + rewrite length_app. lia.
Qed.

Lemma dict_mem_In (k : string) {V : Type} (d : list (string * V)) :
  Dict.mem String.eqb k d = true <-> In k (map fst d).
Proof.
  unfold Dict.mem. induction d as [| [k' v'] r IH]; simpl; [split; [discriminate | tauto] |].
  destruct (String.eqb k k') eqn:E.
  - apply String.eqb_eq in E. subst. tauto.
  - rewrite IH. apply String.eqb_neq in E. intuition congruence.
Qed.

Lemma nodup_map_fst_filter {V : Type} (P : string * V -> bool) (d : list (string * V)) :
  NoDup (map fst d) -> NoDup (map fst (filter P d)) /\ incl (map fst (filter P d)) (map fst d).
Proof.
  induction d as [| [k v] r IH]; simpl; intros H; [split; [constructor | intros x []] |].
  inversion H as [| ? ? Hk Hr]; subst. destruct (IH Hr) as [Hn Hi].
  destruct (P (k, v)); simpl.
  - split; [constructor; [intros Hin; apply Hk, Hi, Hin | exact Hn] |].
    intros x [-> | Hx]; [left; reflexivity | right; apply Hi, Hx].
  - split; [exact Hn | intros x Hx; right; apply Hi, Hx].
Qed.

(** [resolve_and_pin] reports at most one resolved entry per requested
    name and none for a name that was not requested, whichever path it
    takes (lockfile, lockfile plus registry fallback for the missing
    names, registry only); it makes at most one npm install and two
    registry requests (the package document, then a search) per name.
    [deps] is a dict, so its keys are distinct. *)
Theorem resolve_and_pin_at_most_one_per_name (env : reg_env) (cache : list (option string * cache_entry))
    (npm_available : bool) (npm : npm_outcome) (deps : deps_t) (language : string) :
  NoDup (map fst deps) ->
  let r := resolve_and_pin env cache npm_available npm deps language in
  Forall (fun e => In (d_name e) (map fst deps)) (rp_resolved r)
  /\ NoDup (map d_name (rp_resolved r))
  /\ length (rp_net r) <= 1 + 2 * length deps.
Proof.
  intros Hnd. cbv zeta. unfold resolve_and_pin.
  destruct deps as [| d0 drest] eqn:Edeps; [simpl; repeat split; [constructor | constructor | lia] |].
  rewrite <- Edeps in *.
  assert (Hreg : forall net0, let fb := _resolve_with_registry env cache net0 deps in
            Forall (fun e => In (d_name e) (map fst deps)) (rp_resolved fb)
            /\ NoDup (map d_name (rp_resolved fb))
            /\ length (rp_net fb) <= length net0 + 2 * length deps).
  { intros net0. cbv zeta. unfold _resolve_with_registry. cbn [rp_resolved rp_net].
    destruct (resolve_names_inv env (map fst deps) (mkRState cache [] [] [] net0))
      as [l [m [Hr [Hf [Hd [Hn Hm]]]]]].
    rewrite Hr, Hn. cbn [rs_resolved rs_net app]. rewrite length_app, length_map in *.
    repeat split; [exact Hf | apply Hd, Hnd | lia]. }
  destruct (andb _ npm_available); [| destruct (Hreg []) as [H1 [H2 H3]]; cbn [length] in H3; split; [exact H1 | split; [exact H2 | lia]]].
  (* the lockfile path *)
  destruct (_resolve_with_npm npm deps) as [np npm_warnings] eqn:Enpm.
  assert (Hnp : NoDup (map fst np) /\ Forall (fun kv => In (fst kv) (map fst deps)) np).
  { unfold _resolve_with_npm in Enpm. destruct npm as [lock | e | e]; injection Enpm as <- _;
      [| split; constructor | split; constructor].
    destruct (ResolverMoreFacts.extract_pinned_ok lock (map fst deps)) as [Hn Hf].
    split; [exact Hn |]. eapply Forall_impl; [| exact Hf]. intros kv [Hk _]. exact Hk. }
  destruct Hnp as [Hnp1 Hnp2].
  assert (Hcomb : forall (f : string * string -> resolved), (forall kv, d_name (f kv) = fst kv) ->
            Forall (fun e => In (d_name e) (map fst deps)) (map f np)
            /\ NoDup (map d_name (map f np))).
  { intros f Hf. rewrite map_map. replace (map (fun x => d_name (f x)) np) with (map fst np)
      by (apply map_ext; intros; symmetry; apply Hf).
    split; [| exact Hnp1]. apply Forall_map. eapply Forall_impl; [| exact Hnp2].
    intros kv Hk. rewrite Hf. exact Hk. }
  destruct (Hcomb (fun '(n, v) => mkResolved n (Some v) (Some "npm")
                       (Some (NPM_REGISTRY ++ "/" ++ quote n)) (98 # 100) None))
    as [Hc1 Hc2]; [intros [k v]; reflexivity |].
  destruct (filter _ (map fst deps)) as [| m0 mrest] eqn:Emiss.
  - cbn [rp_resolved rp_net]. repeat split; [exact Hc1 | exact Hc2 | simpl; lia].
  - set (fdeps := filter _ deps).
    destruct (nodup_map_fst_filter (fun '(n, _) => str_in n (m0 :: mrest)) deps Hnd) as [Hfn Hfi].
    assert (Hfb : let fb := _resolve_with_registry env cache [NpmInstall] fdeps in
              Forall (fun e => In (d_name e) (map fst fdeps)) (rp_resolved fb)
              /\ NoDup (map d_name (rp_resolved fb))
              /\ length (rp_net fb) <= 1 + 2 * length fdeps).
    { cbv zeta. unfold _resolve_with_registry. cbn [rp_resolved rp_net].
      destruct (resolve_names_inv env (map fst fdeps) (mkRState cache [] [] [] [NpmInstall]))
        as [l [m [Hr [Hf [Hd [Hn Hm]]]]]].
      rewrite Hr, Hn. cbn [rs_resolved rs_net app]. rewrite length_map in Hm.
      repeat split; [exact Hf | apply Hd, Hfn | simpl; lia]. }
    cbv zeta in Hfb. destruct Hfb as [Hb1 [Hb2 Hb3]].
    cbn [rp_resolved rp_net]. split; [| split].
    + apply Forall_app. split; [exact Hc1 |].
      eapply Forall_impl; [| exact Hb1]. intros e He. apply Hfi, He.
    + rewrite map_app. apply NoDup_app; [exact Hc2 | exact Hb2 |].
      intros a Ha Hb. rewrite map_map in Ha.
      assert (Hak : In a (map fst np)).
      { apply in_map_iff in Ha as [[k v] [Hk Hin]]. simpl in Hk.
        apply in_map_iff. exists (k, v). split; [exact Hk | exact Hin]. }
      apply in_map_iff in Hb as [e [He Hein]].
      rewrite Forall_forall in Hb1. pose proof (Hb1 e Hein) as Hef. rewrite He in Hef.
      unfold fdeps in Hef. apply in_map_iff in Hef as [[k v] [Hk Hin]]. simpl in Hk. subst k.
      apply filter_In in Hin as [_ Hstr]. apply ResolverMoreFacts.str_in_In in Hstr.
      rewrite <- Emiss in Hstr. apply filter_In in Hstr as [_ Hmem].
      apply negb_true_iff in Hmem. apply dict_mem_In in Hak. congruence.
    + assert (length fdeps <= length deps) by apply filter_length_le. lia.
Qed.

End ResolverCountFacts.

(* ------------------------------------------------------------------ *)
(** ** The registry fallback version *)

Module VersionFacts.
Import Py Resolver.

Lemma string_leb_trans (a b c : string) :
  String.leb a b = true -> String.leb b c = true -> String.leb a c = true.
Proof.
  unfold String.leb. revert b c.
  induction a as [| x a IH]; intros b c H1 H2.
  - destruct c; reflexivity.
  - destruct b as [| y b]; [discriminate |]. destruct c as [| z c].
    + destruct b; discriminate.
    + simpl in *. unfold Ascii.compare in *.
      destruct (N.compare_spec (N_of_ascii x) (N_of_ascii y)) as [Exy | Exy | Exy];
      destruct (N.compare_spec (N_of_ascii y) (N_of_ascii z)) as [Eyz | Eyz | Eyz];
      try discriminate.
      * assert (Exz : N_of_ascii x = N_of_ascii z) by lia. rewrite Exz, N.compare_refl.
        exact (IH b c H1 H2).
      * replace (N.compare (N_of_ascii x) (N_of_ascii z)) with Lt
          by (symmetry; apply N.compare_lt_iff; lia). reflexivity.
      * replace (N.compare (N_of_ascii x) (N_of_ascii z)) with Lt
          by (symmetry; apply N.compare_lt_iff; lia). reflexivity.
      * replace (N.compare (N_of_ascii x) (N_of_ascii z)) with Lt
          by (symmetry; apply N.compare_lt_iff; lia). reflexivity.
Qed.

Lemma string_leb_refl (a : string) : String.leb a a = true.
Proof.
  unfold String.leb. induction a as [| x a IH]; [reflexivity |].
  simpl. unfold Ascii.compare. rewrite N.compare_refl. exact IH.
Qed.

Lemma string_leb_not_total (a b : string) : String.leb a b = false -> String.leb b a = true.
Proof. intros H. destruct (String.leb_total a b) as [H' | H']; congruence. Qed.

Fixpoint sorted_le (l : list string) : Prop :=
  match l with
  | [] => True
  | x :: r => Forall (fun y => String.leb x y = true) r /\ sorted_le r
  end.

Lemma insert_sorted_In (x y : string) (l : list string) :
  In y (insert_sorted x l) <-> y = x \/ In y l.
Proof.
  induction l as [| z r IH]; simpl; [intuition congruence |].
  destruct (String.leb x z); simpl; [intuition congruence |]. rewrite IH. intuition congruence.
Qed.

Lemma sorted_strings_In (y : string) (l : list string) : In y (sorted_strings l) <-> In y l.
Proof.
  induction l as [| x r IH]; simpl; [tauto |]. rewrite insert_sorted_In, IH. intuition congruence.
Qed.

Lemma insert_sorted_ok (x : string) (l : list string) : sorted_le l -> sorted_le (insert_sorted x l).
Proof.
  induction l as [| z r IH]; simpl; intros Hs; [split; [constructor | exact I] |].
  destruct Hs as [Hz Hr]. destruct (String.leb x z) eqn:E.
  - simpl. split; [| split; assumption].
    constructor; [exact E |]. eapply Forall_impl; [| exact Hz]. intros y Hy.
    exact (string_leb_trans _ _ _ E Hy).
  - simpl. split; [| apply IH, Hr].
    apply Forall_forall. intros y Hy. apply insert_sorted_In in Hy as [-> | Hy].
    + apply string_leb_not_total. exact E.
    + rewrite Forall_forall in Hz. apply Hz, Hy.
Qed.

Lemma sorted_strings_ok (l : list string) : sorted_le (sorted_strings l).
Proof. induction l as [| x r IH]; simpl; [exact I | apply insert_sorted_ok, IH]. Qed.

Lemma sorted_last_max (l : list string) (v : string) (t : list string) :
  sorted_le l -> rev l = v :: t -> forall w, In w l -> String.leb w v = true.
Proof.
  revert v t. induction l as [| a r IH]; intros v t Hs Hr w Hw; [discriminate |].
  destruct Hs as [Ha Hsr]. simpl in Hr.
  destruct (rev r) as [| v' t'] eqn:Er.
  - simpl in Hr. injection Hr as <- _. apply (f_equal (@rev string)) in Er.
    rewrite rev_involutive in Er. simpl in Er. subst r.
    destruct Hw as [<- | []]. apply string_leb_refl.
  - simpl in Hr. injection Hr as <- _.
    assert (Hv : In v' r) by (apply in_rev; rewrite Er; left; reflexivity).
    destruct Hw as [<- | Hw].
    + rewrite Forall_forall in Ha. apply Ha, Hv.
    + exact (IH v' t' Hsr eq_refl w Hw).
Qed.

(** When the cache has no fresh entry for [name] and the registry answers
    200 with neither a truthy [dist-tags.latest] nor a truthy [version],
    [_resolve_with_registry] pins [sorted(versions)[-1]]: the greatest
    version key in code-point (string) order, which need not be the
    highest semantic version (["9.0.0"] sorts after ["10.0.0"]); the
    entry has source [npm] and confidence 0.98. *)
Theorem registry_fallback_pins_greatest_string (env : reg_env) (name : string) (st : rstate)
    (latest version : option string) (versions : list string) :
  match Dict.get okey_eqb (Some name) (rs_cache st) with
  | Some entry => Z.ltb (now env - ce_ts entry) NPM_CACHE_TTL = false
  | None => True
  end ->
  registry_get env (NPM_REGISTRY ++ "/" ++ quote name) = Resp200 latest version versions ->
  truthy (py_or latest version) = false ->
  (exists w, In w versions /\ w <> "") ->
  exists v, In v versions /\ (forall w, In w versions -> String.leb w v = true)
    /\ rs_resolved (resolve_name env name st)
       = app (rs_resolved st) [mkResolved name (Some v) (Some "npm")
                                (Some (NPM_REGISTRY ++ "/" ++ quote name)) (98 # 100) None].
Proof.
  intros Hfresh Hget Hver [w0 [Hw0 Hne]].
  destruct (rev (sorted_strings versions)) as [| v t] eqn:Er.
  { apply (f_equal (@rev string)) in Er. rewrite rev_involutive in Er. simpl in Er.
    apply sorted_strings_In in Hw0. rewrite Er in Hw0. destruct Hw0. }
  assert (Hmax : forall w, In w versions -> String.leb w v = true).
  { intros w Hw. apply (sorted_last_max (sorted_strings versions) v t (sorted_strings_ok _) Er).
    apply sorted_strings_In, Hw. }
  assert (Hv : In v versions).
  { apply sorted_strings_In, in_rev. rewrite Er. left. reflexivity. }
  assert (Hvne : (v =? "") = false).
  { apply String.eqb_neq. intros ->. pose proof (Hmax w0 Hw0) as H.
    destruct w0; [contradiction | discriminate]. }
  exists v. split; [exact Hv | split; [exact Hmax |]].
  unfold resolve_name.
  destruct (Dict.get okey_eqb (Some name) (rs_cache st)) as [e |]; [rewrite Hfresh |]; cbv zeta;
    rewrite Hget, Hver, Er; simpl truthy; rewrite Hvne; reflexivity.
Qed.

End VersionFacts.

(* ------------------------------------------------------------------ *)
(** ** The followup list *)

Module FollowupMoreFacts.
Import Py Followup.

Lemma dedupe_loop_shape (ans : list string) (cands : list followup) (seen : list string) :
  NoDup (map (fun f => _normalize (question f)) (dedupe_loop ans cands seen))
  /\ Forall (fun f => strip (question f) = question f /\ question f <> ""
                      /\ exists c, In c cands /\ fid f = fid c /\ urgency f = urgency c
                                  /\ question f = strip (question c))
            (dedupe_loop ans cands seen).
Proof.
  revert seen. induction cands as [| cand rest IH]; intros seen; simpl; [split; constructor |].
  destruct (String.eqb (strip (question cand)) "") eqn:E1.
  { destruct (IH seen) as [H1 H2]. split; [exact H1 |].
    eapply Forall_impl; [| exact H2]. intros f [Ha [Hb [c [Hc Hd]]]].
    repeat split; auto. exists c. split; [right; exact Hc | exact Hd]. }
  destruct (existsb _ seen).
  { destruct (IH seen) as [H1 H2]. split; [exact H1 |].
    eapply Forall_impl; [| exact H2]. intros f [Ha [Hb [c [Hc Hd]]]].
    repeat split; auto. exists c. split; [right; exact Hc | exact Hd]. }
  destruct (existsb _ ans).
  { destruct (IH seen) as [H1 H2]. split; [exact H1 |].
    eapply Forall_impl; [| exact H2]. intros f [Ha [Hb [c [Hc Hd]]]].
    repeat split; auto. exists c. split; [right; exact Hc | exact Hd]. }
  destruct (IH (_normalize (question cand) :: seen)) as [H1 H2]. split.
  - simpl. constructor; [| exact H1].
    rewrite FollowupFacts.normalize_strip. intros Hin.
    apply in_map_iff in Hin as [o [Ho Hin]].
    apply (FollowupFacts.dedupe_loop_fresh ans rest _ o Hin). left. symmetry. exact Ho.
  - constructor.
    + simpl. split; [apply FollowupFacts.strip_idem |]. split; [apply String.eqb_neq; exact E1 |].
      exists cand. split; [left; reflexivity | repeat split].
    + eapply Forall_impl; [| exact H2]. intros f [Ha [Hb [c [Hc Hd]]]].
      repeat split; auto. exists c. split; [right; exact Hc | exact Hd].
Qed.

Lemma NoDup_firstn {A : Type} (n : nat) (l : list A) : NoDup l -> NoDup (firstn n l).
Proof.
  intros H. rewrite <- (firstn_skipn n l) in H. apply NoDup_app_remove_r in H. exact H.
Qed.

(** [generate_followup_questions] returns at most [max(1, max_questions)]
    followups; each one comes from a parsed candidate (same id and
    urgency, question stripped), has urgency at least [min_urgency] and a
    non-empty stripped question, and no two of them have the same
    normalized question. *)
Theorem generate_followup_questions_shape (candidates : list followup)
    (previous_questions followup_answers : list string) (max_questions : Z) (min_urgency : Q) :
  let out := generate_followup_questions candidates previous_questions followup_answers
               max_questions min_urgency in
  length out <= Z.to_nat (Z.max 1 max_questions)
  /\ NoDup (map (fun f => _normalize (question f)) out)
  /\ Forall (fun f => Qle_bool min_urgency (urgency f) = true
                      /\ strip (question f) = question f /\ question f <> ""
                      /\ exists c, In c candidates /\ fid f = fid c /\ urgency f = urgency c
                                  /\ question f = strip (question c)) out.
Proof.
  cbv zeta. unfold generate_followup_questions, filter_candidates.
  set (ans := map _normalize _). set (seen := map _normalize previous_questions).
  destruct (dedupe_loop_shape ans candidates seen) as [Hn Hf].
  split; [| split].
  - rewrite length_firstn. destruct (Z.ltb_spec max_questions 1); lia.
  - rewrite <- firstn_map. apply NoDup_firstn.
    clear Hf. induction (dedupe_loop ans candidates seen) as [| x r IH]; simpl in *; [constructor |].
    inversion Hn as [| ? ? Hx Hr]; subst.
    destruct (Qle_bool min_urgency (urgency x)); simpl; [| apply IH, Hr].
    constructor; [| apply IH, Hr]. intros Hin. apply Hx.
    apply in_map_iff in Hin as [o [Ho Hin]]. apply filter_In in Hin as [Hin _].
    rewrite <- Ho. apply (in_map (fun f => _normalize (question f))), Hin.
  - apply Forall_forall. intros f Hin. apply FollowupFacts.in_firstn, filter_In in Hin as [Hin Hq].
    rewrite Forall_forall in Hf. split; [exact Hq | apply Hf, Hin].
Qed.

End FollowupMoreFacts.

(* ------------------------------------------------------------------ *)
(** ** The sanitize loop of [generate_project] *)

Module SanitizeFacts.
Import Paths Files.

Lemma replace_first_length (cp : string) (nf : file) (l : list file) :
  length (replace_first cp nf l) = length l.
Proof.
  induction l as [| ex r IH]; simpl; [reflexivity |].
  destruct (String.eqb _ _); simpl; [reflexivity | rewrite IH; reflexivity].
Qed.

Lemma replace_first_In (cp : string) (nf : file) (l : list file) (o : file) :
  In o (replace_first cp nf l) -> o = nf \/ In o l.
Proof.
  induction l as [| ex r IH]; simpl; [tauto |].
  destruct (String.eqb _ _); simpl; intros [H | H]; try (left; congruence); try tauto.
Qed.

Definition from_input (src : list file) (o : file) : Prop :=
  exists f, In f src /\ content o = content f.

Lemma sanitize_loop_inv (src gen : list file) :
  incl gen src ->
  forall (seen : list string) (san : list file),
    NoDup seen -> length san = length seen ->
    Forall (fun o => In (path o) seen /\ from_input src o) san ->
    exists seen', NoDup seen'
      /\ (forall x, In x seen' <-> In x seen \/ exists f, In f gen /\ path f <> "" /\ clean_path (path f) = x)
      /\ length (sanitize_loop gen seen san) = length seen'
      /\ Forall (fun o => In (path o) seen' /\ from_input src o) (sanitize_loop gen seen san).
Proof.
  induction gen as [| f rest IH]; intros Hincl seen san Hnd Hlen Hall; simpl.
  { exists seen. split; [exact Hnd | split; [| split; [exact Hlen | exact Hall]]].
    intros x. split; [tauto | intros [H | [g [[] _]]]; exact H]. }
  assert (Hf : In f src) by (apply Hincl; left; reflexivity).
  assert (Hr : incl rest src) by (intros g Hg; apply Hincl; right; exact Hg).
  destruct (String.eqb (path f) "") eqn:Ep.
  - destruct (IH Hr seen san Hnd Hlen Hall) as [s' [H1 [H2 H3]]].
    exists s'. split; [exact H1 | split; [| exact H3]].
    intros x. rewrite H2. split.
    + intros [H | [g [Hg Hg']]]; [left; exact H | right; exists g; split; [right; exact Hg | exact Hg']].
    + intros [H | [g [[<- | Hg] [Hne Hx]]]]; [left; exact H | | right; exists g; tauto].
      apply String.eqb_eq in Ep. contradiction.
  - assert (Hne : path f <> "") by (apply String.eqb_neq; exact Ep).
    destruct (existsb (String.eqb (clean_path (path f))) seen) eqn:Es.
    + apply existsb_exists in Es as [y [Hy Hyeq]]. apply String.eqb_eq in Hyeq.
      destruct (IH Hr seen (replace_first (clean_path (path f)) (mkFile (clean_path (path f)) (content f)) san))
        as [s' [H1 [H2 H3]]]; [exact Hnd | rewrite replace_first_length; exact Hlen | |].
      { apply Forall_forall. intros o Ho. apply replace_first_In in Ho as [-> | Ho].
        - simpl. split; [rewrite Hyeq; exact Hy | exists f; split; [exact Hf | reflexivity]].
        - rewrite Forall_forall in Hall. apply Hall, Ho. }
      exists s'. split; [exact H1 | split; [| exact H3]].
      intros x. rewrite H2. split.
      * intros [H | [g [Hg Hg']]]; [left; exact H | right; exists g; split; [right; exact Hg | exact Hg']].
      * intros [H | [g [[<- | Hg] [Hg1 Hx]]]]; [left; exact H | left; rewrite <- Hx, Hyeq; exact Hy |].
        right. exists g. tauto.
    + assert (Hnot : ~ In (clean_path (path f)) seen).
      { intros Hin. assert (Hc : existsb (String.eqb (clean_path (path f))) seen = true).
        { apply existsb_exists. exists (clean_path (path f)). split; [exact Hin | apply String.eqb_refl]. }
        congruence. }
      destruct (IH Hr (clean_path (path f) :: seen) (san ++ [mkFile (clean_path (path f)) (content f)])%list)
        as [s' [H1 [H2 H3]]].
      { constructor; assumption. }
      { rewrite length_app, Hlen. simpl. lia. }
      { apply Forall_app. split.
        - eapply Forall_impl; [| exact Hall]. intros o [Ho Ho']. split; [right; exact Ho | exact Ho'].
        - constructor; [| constructor]. simpl. split; [left; reflexivity | exists f; split; [exact Hf | reflexivity]]. }
      exists s'. split; [exact H1 | split; [| exact H3]].
      intros x. rewrite H2. simpl. split.
      * intros [[H | H] | [g [Hg Hg']]].
        -- right. exists f. split; [left; reflexivity | split; [exact Hne | exact H]].
        -- left. exact H.
        -- right. exists g. split; [right; exact Hg | exact Hg'].
      * intros [H | [g [[<- | Hg] [Hg1 Hx]]]]; [tauto | left; left; exact Hx |].
        right. exists g. tauto.
Qed.

Lemma sanitize_and_dedupe_inv (generated_files : list file) :
  exists seen, NoDup seen
    /\ (forall x, In x seen <-> exists f, In f generated_files /\ path f <> "" /\ clean_path (path f) = x)
    /\ length (sanitize_and_dedupe generated_files) = length seen
    /\ Forall (fun o => In (path o) seen /\ from_input generated_files o) (sanitize_and_dedupe generated_files).
Proof.
  destruct (sanitize_loop_inv generated_files generated_files (incl_refl _) [] [])
    as [s' [H1 [H2 H3]]]; [constructor | reflexivity | constructor |].
  exists s'. split; [exact H1 | split; [| exact H3]].
  intros x. rewrite H2. simpl. tauto.
Qed.

(** The sanitize loop of [generate_project] returns as many entries as
    there are distinct cleaned paths ([normpath(p).lstrip("/")]) among the
    inputs with a non-empty path: entries with an empty path are dropped,
    every output path is one of these cleaned paths and every output
    content is the content of some input.  The output paths need not be
    distinct: a duplicate replaces the first entry whose own path cleans
    to the same value, and that entry may still carry its original path
    ([["/"; "."; "."]] gives two ["."] entries). *)
Theorem sanitize_and_dedupe_counts_distinct_paths (generated_files : list file) :
  (exists seen, NoDup seen
    /\ (forall x, In x seen <-> exists f, In f generated_files /\ path f <> "" /\ clean_path (path f) = x)
    /\ length (sanitize_and_dedupe generated_files) = length seen
    /\ Forall (fun o => In (path o) seen
                        /\ exists f, In f generated_files /\ content o = content f)
              (sanitize_and_dedupe generated_files))
  /\ map path (sanitize_and_dedupe [mkFile "/" "a"; mkFile "." "b"; mkFile "." "c"]) = ["."; "."].
Proof. split; [exact (sanitize_and_dedupe_inv generated_files) | vm_compute; reflexivity]. Qed.

End SanitizeFacts.

(* ------------------------------------------------------------------ *)
(** ** [attempt_repair] *)

Module RepairFacts.
Import Files Validator.

Lemma dict_get_set (k k' : string) (v : string) (d : list (string * string)) :
  Dict.get String.eqb k (Dict.set String.eqb k' v d)
  = if String.eqb k k' then Some v else Dict.get String.eqb k d.
Proof.
  induction d as [| [k'' v''] r IH]; simpl.
  - destruct (String.eqb k k'); reflexivity.
  - destruct (String.eqb_spec k' k'') as [<- | Hne]; simpl.
    + destruct (String.eqb k k'); reflexivity.
    + rewrite IH. destruct (String.eqb_spec k k') as [-> | Hk]; [| reflexivity].
      apply String.eqb_neq in Hne. rewrite Hne. reflexivity.
Qed.

Lemma apply_candidates_count (fs : fs_env) (cands : list file) :
  forall d, snd (apply_candidates fs cands d) <= length cands.
Proof.
  induction cands as [| cf r IH]; intros d; simpl; [lia |].
  destruct (fs_write fs d cf) as [d1 |].
  - specialize (IH d1). destruct (apply_candidates fs r d1) as [d' n]. simpl in *. lia.
  - specialize (IH d). lia.
Qed.

(** Whatever the budget [attempts_allowed], [attempt_repair] calls the
    model at most once (never when the budget is not positive), and
    [attempts] counts that call; [ok] is [applied > 0]; [applied] is at
    most the number of [repaired_files], which all have a non-empty path. *)
Theorem attempt_repair_single_call (llm : nat -> llm_reply) (fs : fs_env)
    (workdir : dir) (attempts_allowed : Z) :
  let '(rr, _, calls) := attempt_repair llm fs workdir attempts_allowed in
  calls = (if Z.leb attempts_allowed 0 then 0 else 1)
  /\ r_attempts rr = calls
  /\ r_ok rr = Nat.ltb 0 (r_applied rr)
  /\ r_applied rr <= length (r_repaired_files rr)
  /\ Forall (fun f => path f <> "") (r_repaired_files rr).
Proof.
  unfold attempt_repair.
  destruct (Z.to_nat attempts_allowed) as [| n] eqn:Ez.
  { replace (Z.leb attempts_allowed 0) with true by (symmetry; apply Z.leb_le; lia).
    repeat split; auto. }
  replace (Z.leb attempts_allowed 0) with false by (symmetry; apply Z.leb_gt; lia).
  destruct (llm 1) as [e | out]; [repeat split; auto |].
  destruct (filter (fun it => negb (String.eqb (path it) "")) out) as [| c r] eqn:Ef;
    [repeat split; auto |].
  pose proof (apply_candidates_count fs (c :: r) workdir) as H1.
  destruct (apply_candidates fs (c :: r) workdir) as [d' applied]. simpl in *.
  split; [reflexivity | split; [reflexivity | split; [reflexivity | split; [exact H1 |]]]].
  apply Forall_forall. intros f Hf. rewrite <- Ef in Hf. apply filter_In in Hf as [_ Hf].
  apply String.eqb_neq. destruct (String.eqb (path f) ""); [discriminate | reflexivity].
Qed.

End RepairFacts.

(* ------------------------------------------------------------------ *)
(** ** The chunks of a streamed file *)

Module ChunkFacts.
Import Files Stream.

(** The chunk events of a file as a list of chunk strings: numbered from
    [k], the last one marked final. *)
Fixpoint numbered (p : string) (k : nat) (chunks : list string) : list event :=
  match chunks with
  | [] => []
  | ch :: r => EvFileChunk p ch k (match r with [] => true | _ => false end) :: numbered p (S k) r
  end.

Lemma substring_length (s : string) : forall i n,
  String.length (substring i n s) = Nat.min n (String.length s - i).
Proof.
  induction s as [| c r IH]; intros i n.
  - destruct i, n; reflexivity.
  - destruct i as [| i]; [destruct n as [| n]; simpl; [reflexivity | rewrite IH; lia] |].
    simpl. apply IH.
Qed.

Lemma substring_split (s : string) : forall i a b,
  substring i (a + b) s = substring i a s ++ substring (i + a) b s.
Proof.
  induction s as [| c r IH]; intros i a b.
  - destruct i, a, b; reflexivity.
  - destruct i as [| i].
    + destruct a as [| a]; [reflexivity |]. simpl. f_equal. apply (IH 0).
    + simpl. apply IH.
Qed.

Lemma substring_long (s : string) : forall i n,
  String.length s <= i + n -> substring i n s = substring i (String.length s - i) s.
Proof.
  induction s as [| c r IH]; intros i n H.
  - destruct i, n; reflexivity.
  - destruct i as [| i].
    + destruct n as [| n]; simpl in *; [lia |]. f_equal. rewrite (IH 0 n) by lia.
      f_equal. lia.
    + simpl in *. apply IH. lia.
Qed.

Lemma str_app_nil_r (s : string) : s ++ "" = s.
Proof. induction s as [| c r IH]; simpl; [reflexivity | rewrite IH; reflexivity]. Qed.

Lemma str_length_app (s t : string) : String.length (s ++ t) = String.length s + String.length t.
Proof. induction s as [| c r IH]; simpl; [reflexivity | rewrite IH; reflexivity]. Qed.

Lemma substring_zero (s : string) (i : nat) : substring i 0 s = "".
Proof. revert i. induction s as [| c r IH]; intros [| i]; simpl; auto. Qed.

Lemma chunk_events_numbered (p c : string) (sz : nat) (Hsz : 0 < sz) :
  forall fuel k, String.length c - k * sz <= fuel ->
  exists chunks, chunk_events p c sz (k * sz) fuel = numbered p k chunks
    /\ fold_right String.append "" chunks = substring (k * sz) (String.length c - k * sz) c
    /\ Forall (fun ch => 0 < String.length ch <= sz) chunks
    /\ Forall (fun ch => String.length ch = sz) (removelast chunks).
Proof.
  induction fuel as [| f IH]; intros k Hf.
  - exists []. simpl. replace (String.length c - k * sz) with 0 by lia.
    rewrite substring_zero. repeat split; constructor.
  - simpl. destruct (Nat.ltb_spec (k * sz) (String.length c)) as [Hlt | Hge].
    2: { exists []. replace (String.length c - k * sz) with 0 by lia.
         rewrite substring_zero. repeat split; constructor. }
    destruct (IH (S k)) as [r [E1 [E2 [E3 E4]]]]; [simpl; lia |].
    replace (k * sz + sz) with (S k * sz) by (simpl; lia).
    rewrite E1, Nat.div_mul by lia.
    exists (substring (k * sz) sz c :: r). cbn [numbered fold_right removelast].
    assert (Hfin : Nat.leb (String.length c) (S k * sz) = match r with [] => true | _ => false end).
    { destruct (Nat.leb_spec (String.length c) (S k * sz)) as [Hle | Hgt].
      - destruct r as [| x r']; [reflexivity |]. exfalso.
        destruct f as [| f']; [simpl in E1; discriminate |].
        cbn [chunk_events] in E1.
        rewrite (proj2 (Nat.ltb_ge (S k * sz) (String.length c)) Hle) in E1. discriminate.
      - destruct r as [| x r']; [| reflexivity]. exfalso.
        simpl in E2. symmetry in E2. apply (f_equal String.length) in E2.
        rewrite substring_length in E2. simpl in E2. simpl in Hgt. lia. }
    rewrite Hfin. split; [reflexivity |].
    assert (Hlen : String.length (substring (k * sz) sz c) = Nat.min sz (String.length c - k * sz))
      by apply substring_length.
    split; [| split].
    + rewrite E2. simpl.
      destruct (Nat.le_gt_cases (k * sz + sz) (String.length c)) as [Hle | Hgt].
      * replace (String.length c - k * sz) with (sz + (String.length c - (sz + k * sz))) by lia.
        rewrite substring_split. do 2 f_equal; lia.
      * replace (String.length c - (sz + k * sz)) with 0 by lia. rewrite substring_zero, str_app_nil_r.
        apply substring_long. lia.
    + constructor; [lia | exact E3].
    + destruct r as [| x r']; [constructor |]. simpl. constructor; [| exact E4].
      assert (S k * sz < String.length c); [| simpl in *; lia].
      simpl in E3. inversion E3 as [| ? ? Hx _]. simpl in E2.
      apply (f_equal String.length) in E2. rewrite str_length_app, substring_length in E2.
      simpl in E2. lia.
Qed.

(** For a positive [STREAM_CHUNK_SZ], the [file_chunk] events of a file are
    its content cut into consecutive non-empty pieces of [STREAM_CHUNK_SZ]
    characters (the last one possibly shorter): numbered [0, 1, ...],
    with [final] set on the last one only, and their concatenation is the
    whole content. *)
Theorem chunk_events_reassemble (p c : string) (sz : nat) (Hsz : 0 < sz) :
  exists chunks, chunk_events p c sz 0 (String.length c) = numbered p 0 chunks
    /\ fold_right String.append "" chunks = c
    /\ Forall (fun ch => 0 < String.length ch <= sz) chunks
    /\ Forall (fun ch => String.length ch = sz) (removelast chunks).
Proof.
  destruct (chunk_events_numbered p c sz Hsz (String.length c) 0) as [r [E1 [E2 E3]]]; [lia |].
  exists r. simpl in E1, E2. rewrite Nat.sub_0_r in E2.
  split; [exact E1 | split; [| exact E3]]. rewrite E2. apply PathFacts.substring_full. lia.
Qed.

End ChunkFacts.

(* ------------------------------------------------------------------ *)
(** ** The merge of repaired files *)

Module MergeFacts.
Import Paths Files Validator.

Lemma merge_one_spec (rp : string) (nf : file) (l : list file) :
  length (fst (merge_one rp nf l)) = length l
  /\ (forall x, In x (fst (merge_one rp nf l)) -> x = nf \/ In x l)
  /\ (snd (merge_one rp nf l) = false -> fst (merge_one rp nf l) = l).
Proof.
  induction l as [| ex r IH]; simpl; [repeat split; tauto |].
  destruct (String.eqb (clean_path (path ex)) rp).
  - simpl. split; [reflexivity | split; [| discriminate]].
    intros x [H | H]; [left; congruence | right; right; exact H].
  - destruct IH as [H1 [H2 H3]].
    destruct (merge_one rp nf r) as [r' b]. simpl in *.
    split; [rewrite H1; reflexivity | split].
    + intros x [H | H]; [right; left; exact H |]. destruct (H2 x H); [left | right; right]; assumption.
    + intros Hb. rewrite (H3 Hb). reflexivity.
Qed.

Lemma merge_repaired_inv (rep : list file) : forall (san : list file),
  length san <= length (merge_repaired rep san) <= length san + length rep
  /\ forall x, In x (merge_repaired rep san) ->
       In x san \/ exists rf, In rf rep /\ x = mkFile (clean_path (path rf)) (content rf).
Proof.
  induction rep as [| rf rest IH]; intros san; simpl; [split; [lia | tauto] |].
  destruct (merge_one_spec (clean_path (path rf)) (mkFile (clean_path (path rf)) (content rf)) san)
    as [M1 [M2 M3]].
  destruct (merge_one (clean_path (path rf)) (mkFile (clean_path (path rf)) (content rf)) san)
    as [l' b]. simpl in *.
  destruct b.
  - destruct (IH l') as [H1 H2]. split; [lia |].
    intros x Hx. destruct (H2 x Hx) as [Hl | [g [Hg ->]]].
    + destruct (M2 x Hl) as [-> | Hs]; [right; exists rf; split; [left |]; reflexivity | left; exact Hs].
    + right. exists g. split; [right; exact Hg | reflexivity].
  - destruct (IH (san ++ [mkFile (clean_path (path rf)) (content rf)])%list) as [H1 H2].
    rewrite length_app in H1. simpl in H1. split; [lia |].
    intros x Hx. destruct (H2 x Hx) as [Hl | [g [Hg ->]]].
    + apply in_app_or in Hl as [Hs | [<- | []]]; [left; exact Hs |].
      right. exists rf. split; [left |]; reflexivity.
    + right. exists g. split; [right; exact Hg | reflexivity].
Qed.

(** Merging the repaired files into the sanitized files of
    [generate_project] never drops an entry and adds at most one entry per
    repaired file; every resulting entry is a sanitized file or a repaired
    file at its cleaned path. *)
Theorem merge_repaired_bounds (rep_files sanitized_files : list file) :
  length sanitized_files <= length (merge_repaired rep_files sanitized_files)
                         <= length sanitized_files + length rep_files
  /\ forall x, In x (merge_repaired rep_files sanitized_files) ->
       In x sanitized_files
       \/ exists rf, In rf rep_files /\ x = mkFile (clean_path (path rf)) (content rf).
Proof. apply merge_repaired_inv. Qed.

End MergeFacts.

(* ------------------------------------------------------------------ *)
(** ** The legacy version pinning of chain.py *)

Module PinFacts.
Import Py Resolver.

(** [_pin_dep_version] returns the requested name; a curated entry is
    returned as it is, without network access; otherwise the version is
    never empty (the registry's truthy answer, the requested range without
    its leading [^]/[~], or ["1.0.0"]), and at most one registry request
    is made. *)
Theorem pin_dep_version_nonempty (curated : curated_map) (env : reg_env)
    (cache : list (option string * cache_entry)) (name : string) (requested : option string) :
  let '((n, v), net) := _pin_dep_version curated env cache name requested in
  n = name /\ length net <= 1
  /\ match curated_lookup name curated with
     | Some cv => v = cv /\ net = []
     | None => v <> ""
     end.
Proof.
  unfold _pin_dep_version.
  destruct (curated_lookup name curated) as [cv |]; [repeat split; simpl; lia |].
  assert (Hn : length (snd (get_latest_npm_version env cache name)) <= 1).
  { unfold get_latest_npm_version.
    destruct (Dict.get okey_eqb (Some name) cache) as [e |];
      [destruct (Z.ltb _ _) |]; simpl; lia. }
  destruct (get_latest_npm_version env cache name) as [latest net]. simpl in Hn.
  destruct (truthy latest) eqn:Et.
  - split; [reflexivity | split; [exact Hn |]].
    destruct latest as [l |]; [| discriminate]. unfold truthy in Et.
    apply String.eqb_neq. destruct (String.eqb l ""); [discriminate | reflexivity].
  - destruct requested as [r |]; [| split; [reflexivity | split; [exact Hn | discriminate]]].
    destruct (String.eqb (lstrip_chars ["^"%char; "~"%char] r) "") eqn:Es; simpl.
    + split; [reflexivity | split; [exact Hn | discriminate]].
    + split; [reflexivity | split; [exact Hn |]]. apply String.eqb_neq. exact Es.
Qed.

End PinFacts.

(* ------------------------------------------------------------------ *)
(** ** The component batches of chain.py *)

Module ChainFacts.
Import Chain.

Lemma chunk_loop_spec {A : Type} (l : list A) (sz : nat) (Hsz : 0 < sz) :
  forall fuel i, length l - i <= fuel ->
  concat (chunk_loop l sz i fuel) = skipn i l
  /\ Forall (fun ch => 0 < length ch <= sz) (chunk_loop l sz i fuel)
  /\ Forall (fun ch => length ch = sz) (removelast (chunk_loop l sz i fuel)).
Proof.
  induction fuel as [| f IH]; intros i Hf; simpl.
  - rewrite skipn_all2 by lia. repeat split; constructor.
  - destruct (Nat.ltb_spec i (length l)) as [Hlt | Hge].
    2: { rewrite skipn_all2 by lia. repeat split; constructor. }
    destruct (IH (i + sz)) as [E1 [E2 E3]]; [lia |].
    assert (Hlen : length (firstn sz (skipn i l)) = Nat.min sz (length l - i))
      by (rewrite length_firstn, length_skipn; reflexivity).
    split; [| split].
    + simpl. rewrite E1, <- Nat.add_comm, <- skipn_skipn. apply firstn_skipn.
    + constructor; [lia | exact E2].
    + destruct (chunk_loop l sz (i + sz) f) as [| x r] eqn:Er; [constructor |].
      simpl. constructor; [| exact E3].
      assert (i + sz < length l); [| lia].
      destruct (Nat.lt_ge_cases (i + sz) (length l)) as [H | H]; [exact H | exfalso].
      destruct f; simpl in Er; [discriminate |].
      destruct (Nat.ltb_spec (i + sz) (length l)); [lia | discriminate].
Qed.

(** [chunk_components] with a positive [chunk_size] cuts [components] into
    consecutive non-empty batches of [chunk_size] items (the last one
    possibly shorter) whose concatenation is [components]; a size of 0
    raises and a negative size yields no batch. *)
Theorem chunk_components_partition {A : Type} (components : list A) (chunk_size : Z) :
  match chunk_components components chunk_size with
  | None => chunk_size = 0%Z
  | Some chunks =>
      (chunk_size < 0)%Z /\ chunks = []
      \/ (0 < chunk_size)%Z /\ concat chunks = components
         /\ Forall (fun ch => 0 < length ch <= Z.to_nat chunk_size) chunks
         /\ Forall (fun ch => length ch = Z.to_nat chunk_size) (removelast chunks)
  end.
Proof.
  unfold chunk_components.
  destruct (Z.eqb_spec chunk_size 0) as [H0 | H0]; [exact H0 |].
  destruct (Z.ltb_spec chunk_size 0) as [Hn | Hp]; [left; split; [exact Hn | reflexivity] |].
  right. split; [lia |].
  destruct (chunk_loop_spec components (Z.to_nat chunk_size) ltac:(lia) (length components) 0)
    as [E1 E2]; [lia |].
  split; [exact E1 | exact E2].
Qed.

End ChainFacts.

(* ------------------------------------------------------------------ *)
(** ** The candidate loop of [generate_overlay] *)

Module OverlayMoreFacts.
Import Py PosixPath Paths Files.




End OverlayMoreFacts.

(* ------------------------------------------------------------------ *)
(** ** Instances of the properties above on concrete inputs *)

Module Examples.
Import Py PyMore PosixPath Paths Files Resolver Stream.

Lemma safe_normalize_result_is_confined_witness :
  _safe_normalize "src/./a.js" = Some "src/a.js"
  /\ isabs "src/a.js" = false /\ startswith "." "src/a.js" = false
  /\ contains "/.." "src/a.js" = false /\ has_char backslash "src/a.js" = false.
Proof.
  assert (H : _safe_normalize "src/./a.js" = Some "src/a.js") by (vm_compute; reflexivity).
  split; [exact H | exact (PathFacts.safe_normalize_result_is_confined "src/./a.js" "src/a.js" H)].
Defined.

Definition env_two_versions : reg_env :=
  mkRegEnv (fun _ => Resp200 None None ["9.0.0"; "10.0.0"]) (fun _ => []) 0.

Lemma registry_fallback_pins_greatest_string_witness :
  exists v, In v ["9.0.0"; "10.0.0"]
    /\ (forall w, In w ["9.0.0"; "10.0.0"] -> String.leb w v = true)
    /\ rs_resolved (resolve_name env_two_versions "react" (mkRState [] [] [] [] []))
       = app [] [mkResolved "react" (Some v) (Some "npm")
                   (Some (NPM_REGISTRY ++ "/" ++ quote "react")) (98 # 100) None].
Proof.
  apply (VersionFacts.registry_fallback_pins_greatest_string env_two_versions "react"
           (mkRState [] [] [] [] []) None None ["9.0.0"; "10.0.0"]).
  - exact I.
  - reflexivity.
  - reflexivity.
  - exists "9.0.0". split; [left; reflexivity | discriminate].
Defined.

Definition env_not_found : reg_env := mkRegEnv (fun _ => RespStatus 404) (fun _ => []) 0.

Lemma resolve_and_pin_at_most_one_per_name_witness :
  NoDup (map fst [("react", "^18"); ("lodash", "^4")])
  /\ let r := resolve_and_pin env_not_found [] false (NpmErr "") [("react", "^18"); ("lodash", "^4")] "js" in
     Forall (fun e => In (d_name e) (map fst [("react", "^18"); ("lodash", "^4")])) (rp_resolved r)
     /\ NoDup (map d_name (rp_resolved r))
     /\ length (rp_net r) <= 1 + 2 * length [("react", "^18"); ("lodash", "^4")].
Proof.
  assert (Hn : NoDup (map fst [("react", "^18"); ("lodash", "^4")])).
  { simpl. constructor; [intros [H | []]; discriminate | constructor; [intros [] | constructor]]. }
  split; [exact Hn |].
  exact (ResolverCountFacts.resolve_and_pin_at_most_one_per_name env_not_found [] false (NpmErr "")
           [("react", "^18"); ("lodash", "^4")] "js" Hn).
Defined.

Lemma chunk_events_reassemble_witness :
  0 < 3 /\
  exists chunks, chunk_events "a.txt" "abcdefg" 3 0 (String.length "abcdefg")
                 = ChunkFacts.numbered "a.txt" 0 chunks
    /\ fold_right String.append "" chunks = "abcdefg"
    /\ Forall (fun ch => 0 < String.length ch <= 3) chunks
    /\ Forall (fun ch => String.length ch = 3) (removelast chunks).
Proof.
  assert (H : 0 < 3) by lia.
  split; [exact H | exact (ChunkFacts.chunk_events_reassemble "a.txt" "abcdefg" 3 H)].
Defined.

End Examples.
